(** * Raw IMU poller over the Linux I2C character device

    A shallow embedding of [code.cpp]: the program opens [/dev/i2c-1],
    identifies and configures an LSM6DS33 (gyroscope + accelerometer) and a
    LIS3MDL (magnetometer), then polls nine little-endian 16-bit output
    words forever, printing them on one overwritten console line.

    The program is written in a small monad of system calls and console
    output ([prog]); the operating system is an oracle that answers each
    call knowing the history of the run ([run]). *)

From Stdlib Require Import ZArith List String Ascii Lia Bool.
From Stdlib Require Import DecimalString HexadecimalString.
Import ListNotations.

Local Open Scope string_scope.
Local Open Scope list_scope.
Local Open Scope Z_scope.

Infix "+++" := String.append (right associativity, at level 60).

(** ** Fixed-width integers *)

Definition uint8_t (z : Z) : Z := z mod 256.
Definition uint16_t (z : Z) : Z := z mod 65536.

(** Conversion to [int16_t]: reduction modulo 2^16 into [-32768, 32767]. *)
Definition int16_t (z : Z) : Z :=
  let u := z mod 65536 in
  if u <? 32768 then u else u - 65536.

(** ** System calls and their replies *)

(** Constants of the system headers. *)
Definition O_RDWR : Z := 2.
Definition I2C_SLAVE : Z := 0x0703.

Inductive syscall : Type :=
| sys_open (dev : string) (flags : Z)        (* ::open(dev, flags) *)
| sys_ioctl (fd : Z) (request : Z) (arg : Z) (* ioctl(fd, request, arg) *)
| sys_write (fd : Z) (bytes : list Z)        (* write(fd, bytes, |bytes|) *)
| sys_read (fd : Z) (count : Z)              (* read(fd, &v, count) *)
| sys_close (fd : Z).                        (* close(fd) *)

(** What a call leaves behind: its return value, the byte it stored in the
    caller's one-byte buffer (meaningful for [sys_read] only) and the value
    of [errno] once it has returned. *)
Record reply : Type := mkReply { r_ret : Z; r_data : Z; r_errno : Z }.

Definition entry : Type := (syscall * reply)%type.

(** The operating system and the bus behind it: the answer to a call may
    depend on everything that was asked and answered before. *)
Definition oracle : Type := list entry -> syscall -> reply.

(** ** Console streams *)

Inductive radix : Type := Dec | Hex.

(** An output stream: the characters written so far and the two pieces of
    formatting state the program touches ([std::hex]/[std::dec] are sticky,
    [std::setw] applies to the next insertion only). *)
Record ostream : Type := mkStream { buf : string; base : radix; width : nat }.

Inductive item : Type :=
| Str (s : string)     (* << "..." *)
| SetBase (b : radix)  (* << std::hex, << std::dec *)
| Setw (n : nat)       (* << std::setw(n) *)
| Int (z : Z)          (* << int *)
| Short (z : Z)        (* << int16_t *)
| Flush.               (* << std::flush *)

Definition nl : string := String "010"%char EmptyString.
Definition cr : string := String "013"%char EmptyString.

Fixpoint spaces (n : nat) : string :=
  match n with
  | O => EmptyString
  | S n' => String " "%char (spaces n')
  end.

(** Right-justified in a field of [n] characters, filled with blanks. *)
Definition pad (n : nat) (s : string) : string :=
  spaces (n - String.length s) +++ s.

Definition fmt_dec (z : Z) : string :=
  DecimalString.NilZero.string_of_int (Z.to_int z).

Definition fmt_hex (z : Z) : string :=
  HexadecimalString.NilZero.string_of_uint (N.to_hex_uint (Z.to_N z)).

(** A signed integer of [bits] bits in the stream's base: decimal with its
    sign, hexadecimal as the unsigned value of the same width. *)
Definition fmt_num (b : radix) (bits : Z) (z : Z) : string :=
  match b with
  | Dec => fmt_dec z
  | Hex => fmt_hex (z mod 2 ^ bits)
  end.

Definition insert (i : item) (o : ostream) : ostream :=
  match i with
  | Str s => mkStream (buf o +++ pad (width o) s) (base o) 0
  | SetBase b => mkStream (buf o) b (width o)
  | Setw n => mkStream (buf o) (base o) n
  | Int z => mkStream (buf o +++ pad (width o) (fmt_num (base o) 32 z)) (base o) 0
  | Short z => mkStream (buf o +++ pad (width o) (fmt_num (base o) 16 z)) (base o) 0
  | Flush => o
  end.

Inductive stream : Type := Cout | Cerr.

(** ** Programs *)

Inductive prog (A : Type) : Type :=
| Ret (a : A)                               (* normal completion *)
| Sys (c : syscall) (k : reply -> prog A)   (* a system call and what follows *)
| Sleep (us : Z) (k : prog A)               (* usleep(us), result unused *)
| Put (s : stream) (i : item) (k : prog A)  (* stream << item *)
| Exit (status : Z)                         (* std::exit(status) *)
| Spin.                                     (* a loop still going when fuel ends *)

Arguments Ret {A} a.
Arguments Sys {A} c k.
Arguments Sleep {A} us k.
Arguments Put {A} s i k.
Arguments Exit {A} status.
Arguments Spin {A}.

Fixpoint bind {A B : Type} (p : prog A) (f : A -> prog B) : prog B :=
  match p with
  | Ret a => f a
  | Sys c k => Sys c (fun r => bind (k r) f)
  | Sleep us k => Sleep us (bind k f)
  | Put s i k => Put s i (bind k f)
  | Exit st => Exit st
  | Spin => Spin
  end.

Notation "x <- p ;; q" := (bind p (fun x => q))
  (at level 100, p at next level, right associativity).
Notation "p ;; q" := (bind p (fun _ => q))
  (at level 100, right associativity).

Definition call (c : syscall) : prog reply := Sys c (fun r => Ret r).
Definition usleep (us : Z) : prog unit := Sleep us (Ret tt).

(** [s << i1 << i2 << ...]: the items are inserted left to right. *)
Fixpoint puts (s : stream) (items : list item) : prog unit :=
  match items with
  | [] => Ret tt
  | i :: rest => Put s i (puts s rest)
  end.

(** [while (cond) body], unrolled at most [fuel] times. *)
Fixpoint while (fuel : nat) (cond : bool) (body : prog unit) : prog unit :=
  match fuel with
  | O => Spin
  | S fuel' => if cond then (body;; while fuel' cond body) else Ret tt
  end.

(** ** The program *)

Section Program.

(** [std::strerror], the C library's table of error descriptions. *)
Variable strerror : Z -> string.

Definition i2c_open (dev : string) : prog Z :=
  r <- call (sys_open dev O_RDWR);;
  let fd := r_ret r in
  if fd <? 0 then
    (puts Cerr [Str "Failed to open "; Str dev; Str ": ";
                Str (strerror (r_errno r)); Str nl];;
     Exit 1)
  else Ret fd.

Definition i2c_set_slave (fd : Z) (addr : Z) : prog unit :=
  r <- call (sys_ioctl fd I2C_SLAVE addr);;
  if r_ret r <? 0 then
    (puts Cerr [Str "Failed to set I2C slave 0x"; SetBase Hex; Int addr;
                Str ": "; Str (strerror (r_errno r)); Str nl];;
     Exit 1)
  else Ret tt.

Definition read8 (fd : Z) (addr : Z) (reg : Z) : prog Z :=
  i2c_set_slave fd addr;;
  w <- call (sys_write fd [reg]);;
  if negb (r_ret w =? 1) then
    (puts Cerr [Str "I2C write(reg) failed: ";
                Str (strerror (r_errno w)); Str nl];;
     Exit 1)
  else
    r <- call (sys_read fd 1);;
    if negb (r_ret r =? 1) then
      (puts Cerr [Str "I2C read failed: ";
                  Str (strerror (r_errno r)); Str nl];;
       Exit 1)
    else Ret (uint8_t (r_data r)).

Definition write8 (fd : Z) (addr : Z) (reg : Z) (val : Z) : prog unit :=
  i2c_set_slave fd addr;;
  w <- call (sys_write fd [reg; val]);;
  if negb (r_ret w =? 2) then
    (puts Cerr [Str "I2C write(reg,val) failed: ";
                Str (strerror (r_errno w)); Str nl];;
     Exit 1)
  else Ret tt.

Definition read16_le (fd : Z) (addr : Z) (reg_l : Z) : prog Z :=
  lo <- read8 fd addr reg_l;;
  hi <- read8 fd addr (uint8_t (reg_l + 1));;
  Ret (int16_t (Z.lor (uint16_t lo) (Z.shiftl (uint16_t hi) 8))).

Definition I2C_DEV : string := "/dev/i2c-1".

Definition ADDR_LSM6 : Z := 0x6B.
Definition ADDR_LIS3 : Z := 0x1E.

Definition REG_WHO_AM_I_LSM6 : Z := 0x0F.
Definition REG_CTRL1_XL : Z := 0x10.
Definition REG_CTRL2_G : Z := 0x11.

Definition REG_OUTX_L_G : Z := 0x22.
Definition REG_OUTX_L_XL : Z := 0x28.

Definition REG_WHO_AM_I_LIS3 : Z := 0x0F.
Definition REG_CTRL_REG1 : Z := 0x20.
Definition REG_CTRL_REG2 : Z := 0x21.
Definition REG_CTRL_REG3 : Z := 0x22.

Definition REG_OUT_X_L : Z := 0x28.

(** The body of [main]'s [while (true)]. *)
Definition loop_body (fd : Z) : prog unit :=
  gx <- read16_le fd ADDR_LSM6 REG_OUTX_L_G;;
  gy <- read16_le fd ADDR_LSM6 (uint8_t (REG_OUTX_L_G + 2));;
  gz <- read16_le fd ADDR_LSM6 (uint8_t (REG_OUTX_L_G + 4));;
  ax <- read16_le fd ADDR_LSM6 REG_OUTX_L_XL;;
  ay <- read16_le fd ADDR_LSM6 (uint8_t (REG_OUTX_L_XL + 2));;
  az <- read16_le fd ADDR_LSM6 (uint8_t (REG_OUTX_L_XL + 4));;
  mx <- read16_le fd ADDR_LIS3 REG_OUT_X_L;;
  my <- read16_le fd ADDR_LIS3 (uint8_t (REG_OUT_X_L + 2));;
  mz <- read16_le fd ADDR_LIS3 (uint8_t (REG_OUT_X_L + 4));;
  puts Cout [Setw 6; Short gx; Str " "; Setw 6; Short gy; Str " "; Setw 6; Short gz;
             Str " | "; Setw 6; Short ax; Str " "; Setw 6; Short ay; Str " "; Setw 6; Short az;
             Str " | "; Setw 6; Short mx; Str " "; Setw 6; Short my; Str " "; Setw 6; Short mz;
             Str cr; Flush];;
  usleep 50000.

(** [main], with its loop unrolled [fuel] times. *)
Definition main (fuel : nat) : prog Z :=
  fd <- i2c_open I2C_DEV;;
  who_lsm6 <- read8 fd ADDR_LSM6 REG_WHO_AM_I_LSM6;;
  who_lis3 <- read8 fd ADDR_LIS3 REG_WHO_AM_I_LIS3;;
  puts Cout [Str "LSM6DS33 WHO_AM_I = 0x"; SetBase Hex; Int who_lsm6; Str nl];;
  puts Cout [Str "LIS3MDL  WHO_AM_I = 0x"; SetBase Hex; Int who_lis3; Str (nl +++ nl)];;
  write8 fd ADDR_LSM6 REG_CTRL1_XL 0x20;;
  write8 fd ADDR_LSM6 REG_CTRL2_G 0x24;;
  write8 fd ADDR_LIS3 REG_CTRL_REG1 0x6C;;
  write8 fd ADDR_LIS3 REG_CTRL_REG2 0x00;;
  write8 fd ADDR_LIS3 REG_CTRL_REG3 0x00;;
  puts Cout [Str ("Configured sensors. Streaming raw data..." +++ nl)];;
  puts Cout [Str ("Press Ctrl+C to stop." +++ nl +++ nl)];;
  puts Cout [SetBase Dec;
             Str ("  Gx     Gy     Gz  |  Ax     Ay     Az  |  Mx     My     Mz" +++ nl);
             Str ("-----------------------------------------------------------------" +++ nl)];;
  while fuel true (loop_body fd);;
  call (sys_close fd);;
  Ret 0.

End Program.

(** ** Running a program against the operating system *)

Record world : Type := mkWorld {
  log : list entry;     (* every call made so far, with its reply *)
  slept : list Z;       (* every [usleep] so far, in microseconds *)
  cout : ostream;
  cerr : ostream
}.

Inductive outcome (A : Type) : Type :=
| Done (a : A)          (* returned normally *)
| Exited (status : Z)   (* std::exit(status) *)
| Running.              (* still inside a loop when the fuel ran out *)

Arguments Done {A} a.
Arguments Exited {A} status.
Arguments Running {A}.

Definition record (c : syscall) (r : reply) (w : world) : world :=
  mkWorld (log w ++ [(c, r)]) (slept w) (cout w) (cerr w).

Definition nap (us : Z) (w : world) : world :=
  mkWorld (log w) (slept w ++ [us]) (cout w) (cerr w).

Definition print (s : stream) (i : item) (w : world) : world :=
  match s with
  | Cout => mkWorld (log w) (slept w) (insert i (cout w)) (cerr w)
  | Cerr => mkWorld (log w) (slept w) (cout w) (insert i (cerr w))
  end.

Definition fresh : ostream := mkStream "" Dec 0.
Definition boot : world := mkWorld [] [] fresh fresh.

Section Run.

Variable os : oracle.

Fixpoint run {A : Type} (p : prog A) (w : world) : outcome A * world :=
  match p with
  | Ret a => (Done a, w)
  | Sys c k => let r := os (log w) c in run (k r) (record c r w)
  | Sleep us k => run k (nap us w)
  | Put s i k => run k (print s i w)
  | Exit st => (Exited st, w)
  | Spin => (Running, w)
  end.

End Run.

(** ** A simulated bus *)

(** The address bound by the last [ioctl(fd, I2C_SLAVE, addr)] and the
    register named by the last one-byte write, read off the history. *)
Fixpoint selected (h : list entry) (a : Z) : Z :=
  match h with
  | [] => a
  | (sys_ioctl _ _ addr, _) :: h' => selected h' addr
  | _ :: h' => selected h' a
  end.

Fixpoint pointed (h : list entry) (p : Z) : Z :=
  match h with
  | [] => p
  | (sys_write _ (reg :: _), _) :: h' => pointed h' reg
  | _ :: h' => pointed h' p
  end.

(** A bus on which nothing fails: [open] yields descriptor 3, every write
    transfers its whole buffer, every read yields the byte [regs addr reg]
    of the device and register last selected. *)
Definition sim (regs : Z -> Z -> Z) : oracle :=
  fun h c =>
    match c with
    | sys_open _ _ => mkReply 3 0 0
    | sys_ioctl _ _ _ => mkReply 0 0 0
    | sys_write _ bytes => mkReply (Z.of_nat (List.length bytes)) 0 0
    | sys_read _ _ => mkReply 1 (regs (selected h 0) (pointed h 0)) 0
    | sys_close _ => mkReply 0 0 0
    end.

(** The oracle [os], except that the call number [k] of the run (counting
    from 0) is answered [r]. *)
Definition faulty (k : nat) (r : reply) (os : oracle) : oracle :=
  fun h c => if Nat.eqb (List.length h) k then r else os h c.

(** Both devices answering their datasheet identities, everything else 0. *)
Definition idle_regs (addr reg : Z) : Z :=
  if reg =? 0x0F then (if addr =? 0x6B then 0x69 else 0x3D) else 0.

(** ** Vocabulary of the specification *)

(** When the program treats the reply to a call as a failure: a negative
    return from [open] or [ioctl], a transfer of any other size than the one
    asked for from [write] or [read]. *)
Definition fails (c : syscall) (r : reply) : bool :=
  match c with
  | sys_open _ _ => r_ret r <? 0
  | sys_ioctl _ _ _ => r_ret r <? 0
  | sys_write _ bytes => negb (r_ret r =? Z.of_nat (List.length bytes))
  | sys_read _ count => negb (r_ret r =? count)
  | sys_close _ => false
  end.

Definition no_failure (l : list entry) : bool :=
  forallb (fun e => negb (fails (fst e) (snd e))) l.

(** The operation named by the diagnostic of a failed call. *)
Definition operation (c : syscall) : string :=
  match c with
  | sys_open dev _ => "Failed to open " +++ dev
  | sys_ioctl _ _ addr => "Failed to set I2C slave 0x" +++ fmt_num Hex 32 addr
  | sys_write _ [_] => "I2C write(reg) failed"
  | sys_write _ _ => "I2C write(reg,val) failed"
  | sys_read _ _ => "I2C read failed"
  | sys_close _ => ""
  end.

Definition diagnostic (strerror : Z -> string) (c : syscall) (r : reply) : string :=
  operation c +++ ": " +++ strerror (r_errno r) +++ nl.

(** The calls of a log, oldest first. *)
Definition calls (l : list entry) : list syscall := map fst l.

(** The bytes delivered by the reads of a log, oldest first. *)
Definition bytes_in (l : list entry) : list Z :=
  flat_map (fun e => match fst e with
                     | sys_read _ _ => [uint8_t (r_data (snd e))]
                     | _ => []
                     end) l.

(** The register numbers sent as one-byte writes, oldest first. *)
Definition pointers (l : list syscall) : list Z :=
  flat_map (fun c => match c with
                     | sys_write _ [reg] => [reg]
                     | _ => []
                     end) l.

(** Little-endian pairs of bytes as signed 16-bit words. *)
Definition word_le (lo hi : Z) : Z :=
  if lo + 256 * hi <? 32768 then lo + 256 * hi else lo + 256 * hi - 65536.

Fixpoint words (bytes : list Z) : list Z :=
  match bytes with
  | lo :: hi :: rest => word_le lo hi :: words rest
  | _ => []
  end.

(** One data line: nine decimal fields of width 6, then a carriage return. *)
Definition field (z : Z) : string := pad 6 (fmt_dec z).

Definition frame_line (gx gy gz ax ay az mx my mz : Z) : string :=
  field gx +++ " " +++ field gy +++ " " +++ field gz +++ " | " +++
  field ax +++ " " +++ field ay +++ " " +++ field az +++ " | " +++
  field mx +++ " " +++ field my +++ " " +++ field mz +++ cr.

Fixpoint lines (ws : list Z) : string :=
  match ws with
  | gx :: gy :: gz :: ax :: ay :: az :: mx :: my :: mz :: rest =>
      frame_line gx gy gz ax ay az mx my mz +++ lines rest
  | _ => ""
  end.

(** What the console shows before the first data line, given the two
    identification bytes. *)
Definition id_lines (b1 b2 : Z) : string :=
  "LSM6DS33 WHO_AM_I = 0x" +++ fmt_hex b1 +++ nl +++
  "LIS3MDL  WHO_AM_I = 0x" +++ fmt_hex b2 +++ nl +++ nl.

Definition header : string :=
  "Configured sensors. Streaming raw data..." +++ nl +++
  "Press Ctrl+C to stop." +++ nl +++ nl +++
  "  Gx     Gy     Gz  |  Ax     Ay     Az  |  Mx     My     Mz" +++ nl +++
  "-----------------------------------------------------------------" +++ nl.

(** Bus transactions as sequences of calls. *)
Definition select (fd addr : Z) : syscall := sys_ioctl fd I2C_SLAVE addr.

Definition read_txn (fd : Z) (ar : Z * Z) : list syscall :=
  [select fd (fst ar); sys_write fd [snd ar]; sys_read fd 1].

Definition write_txn (fd : Z) (arv : Z * Z * Z) : list syscall :=
  [select fd (fst (fst arv)); sys_write fd [snd (fst arv); snd arv]].

(** Device and register of the two identification reads, of the five
    configuration writes (with their values) and of the eighteen byte reads
    of one sample frame. *)
Definition identify_regs : list (Z * Z) := [(0x6B, 0x0F); (0x1E, 0x0F)].

Definition config_writes : list (Z * Z * Z) :=
  [(0x6B, 0x10, 0x20); (0x6B, 0x11, 0x24);
   (0x1E, 0x20, 0x6C); (0x1E, 0x21, 0x00); (0x1E, 0x22, 0x00)].

Definition frame_regs : list (Z * Z) :=
  [(0x6B, 0x22); (0x6B, 0x23); (0x6B, 0x24); (0x6B, 0x25); (0x6B, 0x26); (0x6B, 0x27);
   (0x6B, 0x28); (0x6B, 0x29); (0x6B, 0x2A); (0x6B, 0x2B); (0x6B, 0x2C); (0x6B, 0x2D);
   (0x1E, 0x28); (0x1E, 0x29); (0x1E, 0x2A); (0x1E, 0x2B); (0x1E, 0x2C); (0x1E, 0x2D)].

Definition frame_calls (fd : Z) : list syscall := flat_map (read_txn fd) frame_regs.

(** Everything up to the first sample: open, identify, configure. *)
Definition prologue (fd : Z) : list syscall :=
  sys_open "/dev/i2c-1" O_RDWR ::
  flat_map (read_txn fd) identify_regs ++ flat_map (write_txn fd) config_writes.

(** The register writes that reach the devices: each two-byte write, with
    the address selected when it was sent. *)
Fixpoint reg_writes (addr : Z) (l : list syscall) : list (Z * Z * Z) :=
  match l with
  | [] => []
  | sys_ioctl _ _ a :: l' => reg_writes a l'
  | sys_write _ [reg; val] :: l' => (addr, reg, val) :: reg_writes addr l'
  | _ :: l' => reg_writes addr l'
  end.

(** What a run that started in [w] and stands in [w'] added to the log. *)
Definition since (w w' : world) : list entry :=
  skipn (List.length (log w)) (log w').

(** A few entries of the C library's table of error descriptions. *)
Definition strerror_linux (e : Z) : string :=
  if e =? 2 then "No such file or directory"
  else if e =? 5 then "Input/output error"
  else if e =? 121 then "Remote I/O error"
  else "Unknown error " +++ fmt_dec e.

(** * Properties *)

(** ** Strings and lists *)

Lemma append_nil_r (s : string) : s +++ "" = s.
Proof. induction s as [|a s IH]; simpl; [reflexivity | now rewrite IH]. Qed.

Lemma append_assoc (s1 s2 s3 : string) : (s1 +++ s2) +++ s3 = s1 +++ (s2 +++ s3).
Proof. induction s1 as [|a s1 IH]; simpl; [reflexivity | now rewrite IH]. Qed.

Lemma pad_0 (s : string) : pad 0 s = s.
Proof. reflexivity. Qed.

Lemma no_failure_app (l1 l2 : list entry) :
  no_failure (l1 ++ l2) = no_failure l1 && no_failure l2.
Proof. apply forallb_app. Qed.

Lemma calls_app (l1 l2 : list entry) : calls (l1 ++ l2) = calls l1 ++ calls l2.
Proof. apply map_app. Qed.

Lemma bytes_in_app (l1 l2 : list entry) :
  bytes_in (l1 ++ l2) = bytes_in l1 ++ bytes_in l2.
Proof. apply flat_map_app. Qed.

(** A failing entry of a log whose entries all succeed but the last is that
    last entry. *)
Lemma failure_is_last (pre post pre' : list entry) (e e' : entry) :
  pre ++ e :: post = pre' ++ [e'] ->
  no_failure pre' = true ->
  fails (fst e) (snd e) = true ->
  post = [] /\ pre = pre' /\ e = e'.
Proof.
  revert pre'. induction pre as [|x pre IH]; intros [|y pre'] Heq Hok Hf; simpl in *.
  - inversion Heq; subst. auto.
  - inversion Heq; subst. simpl in Hok. rewrite Hf in Hok. discriminate.
  - inversion Heq as [[Hx Hnil]]. destruct pre; discriminate.
  - inversion Heq; subst. apply andb_true_iff in Hok as [_ Hok].
    destruct (IH pre' H1 Hok Hf) as (-> & -> & ->). auto.
Qed.

(** ** Bytes and words *)

Lemma uint8_t_range (z : Z) : 0 <= uint8_t z < 256.
Proof. unfold uint8_t. apply Z.mod_pos_bound. lia. Qed.

Lemma bytes_in_range (l : list entry) :
  Forall (fun b => 0 <= b < 256) (bytes_in l).
Proof.
  induction l as [|[c r] l IH]; simpl; [constructor|].
  destruct c; simpl; auto. constructor; [apply uint8_t_range | exact IH].
Qed.

(** With the low byte below 2^8 the bitwise or of [read16_le] is a sum. *)
Lemma lor_shiftl_8 (lo hi : Z) :
  0 <= lo < 256 -> Z.lor lo (Z.shiftl hi 8) = lo + 256 * hi.
Proof.
  intros Hlo.
  assert (Hland : Z.land lo (Z.shiftl hi 8) = 0).
  { rewrite <- (Z.mod_small lo (2 ^ 8)) by (change (2 ^ 8) with 256; lia).
    rewrite <- Z.land_ones by lia.
    rewrite <- Z.land_assoc, (Z.land_comm (Z.ones 8)), Z.land_ones by lia.
    rewrite Z.shiftl_mul_pow2 by lia.
    rewrite Z.mod_mul by (change (2 ^ 8) with 256; lia).
    apply Z.land_0_r. }
  pose proof (Z.add_lor_land lo (Z.shiftl hi 8)) as H.
  rewrite Hland in H. rewrite Z.shiftl_mul_pow2 in * by lia.
  change (2 ^ 8) with 256 in *. lia.
Qed.

Lemma int16_of_bytes (lo hi : Z) :
  0 <= lo < 256 -> 0 <= hi < 256 ->
  int16_t (Z.lor (uint16_t lo) (Z.shiftl (uint16_t hi) 8)) = word_le lo hi.
Proof.
  intros Hlo Hhi. unfold uint16_t.
  rewrite !Z.mod_small by lia. rewrite lor_shiftl_8 by lia.
  unfold int16_t, word_le. rewrite Z.mod_small by lia. reflexivity.
Qed.

(** ** Generic facts about [run] *)

Section Generic.

Variable os : oracle.

Lemma run_bind {A B : Type} (p : prog A) (f : A -> prog B) (w : world) :
  run os (bind p f) w =
  match run os p w with
  | (Done a, w') => run os (f a) w'
  | (Exited st, w') => (Exited st, w')
  | (Running, w') => (Running, w')
  end.
Proof.
  revert w. induction p as [a|c k IH|us k IH|s i k IH|st|]; intros w; simpl; auto.
Qed.

(** The log only grows. *)
Lemma run_log {A : Type} (p : prog A) (w : world) :
  exists new, log (snd (run os p w)) = log w ++ new.
Proof.
  revert w. induction p as [a|c k IH|us k IH|s i k IH|st|]; intros w; simpl;
    try (exists []; now rewrite app_nil_r).
  - destruct (IH (os (log w) c) (record c (os (log w) c) w)) as [new Hn].
    exists ((c, os (log w) c) :: new). rewrite Hn. simpl. now rewrite <- app_assoc.
  - destruct (IH (nap us w)) as [new Hn]. exists new. now rewrite Hn.
  - destruct (IH (print s i w)) as [new Hn]. exists new. rewrite Hn. now destruct s.
Qed.

(** So does what standard output shows. *)
Lemma run_cout {A : Type} (p : prog A) (w : world) :
  exists more, buf (cout (snd (run os p w))) = buf (cout w) +++ more.
Proof.
  revert w. induction p as [a|c k IH|us k IH|s i k IH|st|]; intros w; simpl;
    try (exists ""; now rewrite append_nil_r).
  - destruct (IH (os (log w) c) (record c (os (log w) c) w)) as [more Hm].
    exists more. now rewrite Hm.
  - destruct (IH (nap us w)) as [more Hm]. exists more. now rewrite Hm.
  - destruct (IH (print s i w)) as [more Hm]. rewrite Hm.
    destruct s; simpl; [|now exists more].
    destruct i; simpl; try (now exists more);
      rewrite append_assoc; eexists; reflexivity.
Qed.

End Generic.

(** ** A program logic for [run] *)

Definition silent (w w' : world) : Prop :=
  cout w' = cout w /\ slept w' = slept w.

Definition never (new : list entry) (w' : world) : Prop := False.

Section Soundness.

Variable strerror : Z -> string.
Variable os : oracle.

(** What one run of [p] from [w] guarantees.  The log grows by [new].  If
    the program returns ([Q]) or is still looping ([R]) nothing in [new]
    failed and the error stream is untouched; if it exits, the status is 1,
    the last call of [new] is the only one that failed and its diagnostic
    has been appended to the error stream (which the program never
    switches to a field width other than the initial 0). *)
Definition sound_at {A : Type} (w : world) (p : prog A)
    (Q : list entry -> A -> world -> Prop)
    (R : list entry -> world -> Prop) : Prop :=
  exists new,
    log (snd (run os p w)) = log w ++ new /\
    match fst (run os p w) with
    | Done a =>
        no_failure new = true /\ cerr (snd (run os p w)) = cerr w /\
        Q new a (snd (run os p w))
    | Running =>
        no_failure new = true /\ cerr (snd (run os p w)) = cerr w /\
        R new (snd (run os p w))
    | Exited st =>
        st = 1 /\
        exists pre c r,
          new = pre ++ [(c, r)] /\ no_failure pre = true /\ fails c r = true /\
          (width (cerr w) = 0%nat ->
           buf (cerr (snd (run os p w))) = buf (cerr w) +++ diagnostic strerror c r)
    end.

Lemma sound_bind {A B : Type} (w : world) (p : prog A) (f : A -> prog B)
    (Q1 : list entry -> A -> world -> Prop) (R1 : list entry -> world -> Prop)
    (Q : list entry -> B -> world -> Prop) (R : list entry -> world -> Prop) :
  sound_at w p Q1 R1 ->
  (forall n w', R1 n w' -> R n w') ->
  (forall a n1 w1,
      Q1 n1 a w1 -> no_failure n1 = true ->
      log w1 = log w ++ n1 -> cerr w1 = cerr w ->
      sound_at w1 (f a) (fun n2 b w2 => Q (n1 ++ n2) b w2)
                        (fun n2 w2 => R (n1 ++ n2) w2)) ->
  sound_at w (bind p f) Q R.
Proof.
  unfold sound_at. intros (n1 & Hl1 & H1) HR Hf. rewrite run_bind.
  destruct (run os p w) as [[a|st|] w1]; simpl in *.
  - destruct H1 as (Hok1 & Hc1 & HQ1).
    destruct (Hf a n1 w1 HQ1 Hok1 Hl1 Hc1) as (n2 & Hl2 & H2).
    exists (n1 ++ n2). split.
    { rewrite Hl2, Hl1. now rewrite app_assoc. }
    destruct (run os (f a) w1) as [[b|st|] w2]; simpl in *.
    + destruct H2 as (Hok2 & Hc2 & HQ2). rewrite no_failure_app, Hok1, Hok2.
      repeat split; auto. congruence.
    + destruct H2 as (-> & pre & c & r & -> & Hok2 & Hfail & Hbuf).
      split; [reflexivity|]. exists (n1 ++ pre), c, r.
      rewrite no_failure_app, Hok1, Hok2, app_assoc. repeat split; auto.
      intros Hw. rewrite Hbuf, Hc1; [reflexivity | now rewrite Hc1].
    + destruct H2 as (Hok2 & Hc2 & HR2). rewrite no_failure_app, Hok1, Hok2.
      repeat split; auto. congruence.
  - exists n1. auto.
  - exists n1. destruct H1 as (Hok1 & Hc1 & HR1). auto.
Qed.

Lemma sound_ret {A : Type} (w : world) (a : A)
    (Q : list entry -> A -> world -> Prop) (R : list entry -> world -> Prop) :
  Q [] a w -> sound_at w (Ret a) Q R.
Proof.
  intros HQ. exists []. simpl. rewrite app_nil_r. auto.
Qed.

Lemma sound_weaken {A : Type} (w : world) (p : prog A)
    (Q Q' : list entry -> A -> world -> Prop) (R R' : list entry -> world -> Prop) :
  sound_at w p Q R ->
  (forall n a w', log w' = log w ++ n -> no_failure n = true -> Q n a w' -> Q' n a w') ->
  (forall n w', log w' = log w ++ n -> no_failure n = true -> R n w' -> R' n w') ->
  sound_at w p Q' R'.
Proof.
  unfold sound_at. intros (n & Hl & H) HQ HR. exists n. split; [exact Hl|].
  destruct (fst (run os p w)); intuition.
Qed.

(** *** The bus primitives *)

Ltac crash pre c r :=
  split; [reflexivity|]; exists pre, c, r;
  repeat split; simpl; auto;
  try (intros Hw0; rewrite ?Hw0; unfold diagnostic, pad; simpl;
       rewrite ?append_assoc; simpl; rewrite ?append_assoc; now auto).

Lemma i2c_open_sound (w : world) (dev : string) :
  sound_at w (i2c_open strerror dev)
    (fun new fd w' =>
       new = [(sys_open dev O_RDWR, os (log w) (sys_open dev O_RDWR))] /\
       fd = r_ret (os (log w) (sys_open dev O_RDWR)) /\ silent w w')
    never.
Proof.
  unfold sound_at, i2c_open. simpl.
  set (r := os (log w) (sys_open dev O_RDWR)).
  exists [(sys_open dev O_RDWR, r)].
  destruct (r_ret r <? 0) eqn:E; simpl; rewrite ?E; (split; [reflexivity|]).
  - crash (@nil entry) (sys_open dev O_RDWR) r.
  - repeat split.
Qed.

Lemma i2c_set_slave_sound (w : world) (fd addr : Z) :
  sound_at w (i2c_set_slave strerror fd addr)
    (fun new _ w' => calls new = [select fd addr] /\ silent w w')
    never.
Proof.
  unfold sound_at, i2c_set_slave. simpl.
  set (r := os (log w) (sys_ioctl fd I2C_SLAVE addr)).
  exists [(sys_ioctl fd I2C_SLAVE addr, r)].
  destruct (r_ret r <? 0) eqn:E; simpl; rewrite ?E; (split; [reflexivity|]).
  - crash (@nil entry) (sys_ioctl fd I2C_SLAVE addr) r.
  - repeat split.
Qed.

Lemma read8_sound (w : world) (fd addr reg : Z) :
  sound_at w (read8 strerror fd addr reg)
    (fun new v w' =>
       calls new = read_txn fd (addr, reg) /\ bytes_in new = [v] /\ silent w w')
    never.
Proof.
  unfold read8.
  eapply sound_bind; [apply i2c_set_slave_sound | auto |].
  intros _ n1 w1 (Hn1 & Hc1 & Hs1) _ Hl1 He1.
  unfold sound_at. simpl.
  set (c2 := sys_write fd [reg]). set (r2 := os (log w1) c2).
  destruct (negb (r_ret r2 =? 1)) eqn:E2; simpl.
  { exists [(c2, r2)]. split; [reflexivity|]. crash (@nil entry) c2 r2. }
  set (c3 := sys_read fd 1). set (r3 := os (log w1 ++ [(c2, r2)]) c3).
  exists [(c2, r2); (c3, r3)].
  destruct (negb (r_ret r3 =? 1)) eqn:E3; simpl;
    rewrite <- app_assoc; (split; [reflexivity|]).
  { crash [(c2, r2)] c3 r3. now rewrite E2. }
  rewrite E2, E3. simpl.
  destruct n1 as [|[c1 r1] [|]]; try discriminate.
  unfold calls in Hn1. simpl in Hn1. inversion Hn1. subst c1. repeat split; auto.
Qed.

Lemma write8_sound (w : world) (fd addr reg val : Z) :
  sound_at w (write8 strerror fd addr reg val)
    (fun new _ w' =>
       calls new = write_txn fd (addr, reg, val) /\ bytes_in new = [] /\ silent w w')
    never.
Proof.
  unfold write8.
  eapply sound_bind; [apply i2c_set_slave_sound | auto |].
  intros _ n1 w1 (Hn1 & Hc1 & Hs1) _ Hl1 He1.
  unfold sound_at. simpl.
  set (c2 := sys_write fd [reg; val]). set (r2 := os (log w1) c2).
  exists [(c2, r2)].
  destruct (negb (r_ret r2 =? 2)) eqn:E2; simpl; (split; [reflexivity|]).
  { crash (@nil entry) c2 r2. }
  rewrite E2. simpl.
  destruct n1 as [|[c1 r1] [|]]; try discriminate.
  unfold calls in Hn1. simpl in Hn1. inversion Hn1. subst c1. repeat split; auto.
Qed.

Lemma silent_trans (w1 w2 w3 : world) :
  silent w1 w2 -> silent w2 w3 -> silent w1 w3.
Proof. unfold silent. intros [? ?] [? ?]. split; congruence. Qed.

Lemma read16_le_sound (w : world) (fd addr reg_l : Z) :
  sound_at w (read16_le strerror fd addr reg_l)
    (fun new v w' =>
       calls new = read_txn fd (addr, reg_l) ++ read_txn fd (addr, uint8_t (reg_l + 1)) /\
       (exists lo hi, bytes_in new = [lo; hi] /\ v = word_le lo hi) /\
       silent w w')
    never.
Proof.
  unfold read16_le.
  eapply sound_bind; [apply read8_sound | auto |].
  intros lo n1 w1 (Hm1 & Hb1 & Hs1) _ _ _.
  eapply sound_bind; [apply read8_sound | auto |].
  intros hi n2 w2 (Hm2 & Hb2 & Hs2) _ _ _.
  apply sound_ret. rewrite app_nil_r.
  pose proof (bytes_in_range n1) as Hr1. rewrite Hb1 in Hr1.
  pose proof (bytes_in_range n2) as Hr2. rewrite Hb2 in Hr2.
  inversion Hr1; inversion Hr2; subst.
  split; [|split].
  - rewrite calls_app. now f_equal.
  - exists lo, hi. rewrite bytes_in_app, Hb1, Hb2. split; [reflexivity|].
    now apply int16_of_bytes.
  - eapply silent_trans; eauto.
Qed.

Lemma sound_put_cout {A : Type} (w : world) (i : item) (k : prog A)
    (Q : list entry -> A -> world -> Prop) (R : list entry -> world -> Prop) :
  sound_at (print Cout i w) k Q R -> sound_at w (Put Cout i k) Q R.
Proof. intros H. exact H. Qed.

Lemma sound_sleep {A : Type} (w : world) (us : Z) (k : prog A)
    (Q : list entry -> A -> world -> Prop) (R : list entry -> world -> Prop) :
  sound_at (nap us w) k Q R -> sound_at w (Sleep us k) Q R.
Proof. intros H. exact H. Qed.

(** *** One iteration of the sample loop *)

Ltac read_word v n w' Hm lo hi Hb Hs :=
  eapply sound_bind; [apply read16_le_sound | auto |];
  intros v n w' (Hm & (lo & hi & Hb & ->) & Hs) _ _ _.

Lemma loop_body_sound (w : world) (fd : Z) :
  sound_at w (loop_body strerror fd)
    (fun new _ w' =>
       calls new = frame_calls fd /\
       List.length (bytes_in new) = 18%nat /\
       (base (cout w) = Dec ->
        cout w' = mkStream (buf (cout w) +++ lines (words (bytes_in new))) Dec 0) /\
       slept w' = slept w ++ [50000])
    never.
Proof.
  unfold loop_body.
  read_word gx n1 w1 Hm1 l1 h1 Hb1 Hs1.
  read_word gy n2 w2 Hm2 l2 h2 Hb2 Hs2.
  read_word gz n3 w3 Hm3 l3 h3 Hb3 Hs3.
  read_word ax n4 w4 Hm4 l4 h4 Hb4 Hs4.
  read_word ay n5 w5 Hm5 l5 h5 Hb5 Hs5.
  read_word az n6 w6 Hm6 l6 h6 Hb6 Hs6.
  read_word mx n7 w7 Hm7 l7 h7 Hb7 Hs7.
  read_word my n8 w8 Hm8 l8 h8 Hb8 Hs8.
  read_word mz n9 w9 Hm9 l9 h9 Hb9 Hs9.
  assert (Hs : silent w w9) by (repeat (eapply silent_trans; [eassumption|]); split; reflexivity).
  destruct Hs as [Hc Hsl].
  unfold usleep. cbn [puts bind].
  repeat apply sound_put_cout. apply sound_sleep. apply sound_ret.
  rewrite app_nil_r.
  rewrite !bytes_in_app, Hb1, Hb2, Hb3, Hb4, Hb5, Hb6, Hb7, Hb8, Hb9.
  rewrite !calls_app, Hm1, Hm2, Hm3, Hm4, Hm5, Hm6, Hm7, Hm8, Hm9.
  split; [reflexivity|]. split; [reflexivity|].
  cbn [nap print cout slept insert buf base width app words lines].
  rewrite Hc, Hsl.
  split; [|reflexivity].
  intros Hbase. rewrite Hbase.
  f_equal. cbn [fmt_num]. unfold frame_line, field. rewrite !pad_0.
  rewrite !append_assoc. rewrite append_nil_r. reflexivity.
Qed.

(** *** The loop and the whole program *)

Lemma lines_words_app (b1 b2 : list Z) :
  List.length b1 = 18%nat ->
  lines (words (b1 ++ b2)) = lines (words b1) +++ lines (words b2).
Proof.
  intros H.
  do 19 (destruct b1 as [|? b1]; try discriminate).
  cbn [app words lines]. now rewrite append_assoc.
Qed.

Lemma while_sound (fd : Z) (n : nat) : forall w,
  base (cout w) = Dec -> width (cout w) = 0%nat ->
  sound_at w (while n true (loop_body strerror fd))
    (fun _ _ _ => False)
    (fun new w' =>
       calls new = List.concat (repeat (frame_calls fd) n) /\
       List.length (bytes_in new) = (18 * n)%nat /\
       cout w' = mkStream (buf (cout w) +++ lines (words (bytes_in new))) Dec 0 /\
       slept w' = slept w ++ repeat 50000 n).
Proof.
  induction n as [|n IH]; intros w Hbase Hwidth.
  - exists []. simpl. rewrite !app_nil_r, append_nil_r.
    repeat split; auto. destruct (cout w); simpl in *. congruence.
  - cbn [while].
    eapply sound_bind; [apply loop_body_sound | intros ? ? [] |].
    intros _ n1 w1 (Hc1 & Hlen1 & Hcout1 & Hsl1) _ _ _.
    specialize (Hcout1 Hbase).
    eapply sound_weaken;
      [apply IH; rewrite Hcout1; reflexivity | intros ? ? ? _ _ [] |].
    intros n2 w2 _ _ (Hc2 & Hlen2 & Hcout2 & Hsl2).
    rewrite calls_app, bytes_in_app, Hc1, Hc2, Hcout2, Hsl2, Hcout1, Hsl1.
    repeat split.
    + rewrite length_app, Hlen1, Hlen2. lia.
    + cbn [buf]. now rewrite lines_words_app, append_assoc.
    + now rewrite <- app_assoc.
Qed.

Ltac write_reg n w' Hc Hb Hs :=
  eapply sound_bind; [apply write8_sound | intros ? ? [] |];
  intros _ n w' (Hc & Hb & Hs) _ _ _.

(** Every run of [main]: it never returns; it exits only with status 1,
    right after the first failed call; otherwise it has gone through the
    prologue and [fuel] sample frames, and shows one line per frame. *)
Lemma main_sound (fuel : nat) :
  sound_at boot (main strerror fuel)
    (fun _ _ _ => False)
    (fun new w' =>
       exists b1 b2 data,
         calls new =
           prologue (r_ret (os [] (sys_open I2C_DEV O_RDWR))) ++
           List.concat (repeat (frame_calls (r_ret (os [] (sys_open I2C_DEV O_RDWR)))) fuel) /\
         bytes_in new = b1 :: b2 :: data /\
         List.length data = (18 * fuel)%nat /\
         cout w' = mkStream (id_lines b1 b2 +++ header +++ lines (words data)) Dec 0 /\
         slept w' = repeat 50000 fuel).
Proof.
  unfold main.
  eapply sound_bind; [apply i2c_open_sound | intros ? ? [] |].
  intros fd n0 w0 (-> & -> & Hc0 & Hz0) _ _ _.
  change (log boot) with (@nil entry).
  set (fd := r_ret (os [] (sys_open I2C_DEV O_RDWR))).
  eapply sound_bind; [apply read8_sound | intros ? ? [] |].
  intros b1 n1 w1 (Hm1 & Hb1 & Hc1 & Hz1) _ _ _.
  eapply sound_bind; [apply read8_sound | intros ? ? [] |].
  intros b2 n2 w2 (Hm2 & Hb2 & Hc2 & Hz2) _ _ _.
  cbn [puts bind]. repeat apply sound_put_cout.
  write_reg n3 w3 Hm3 Hb3 Hs3.
  write_reg n4 w4 Hm4 Hb4 Hs4.
  write_reg n5 w5 Hm5 Hb5 Hs5.
  write_reg n6 w6 Hm6 Hb6 Hs6.
  write_reg n7 w7 Hm7 Hb7 Hs7.
  assert (Hs : silent
                 (print Cout (Str (nl +++ nl))
                    (print Cout (Int b2)
                       (print Cout (SetBase Hex)
                          (print Cout (Str "LIS3MDL  WHO_AM_I = 0x")
                             (print Cout (Str nl)
                                (print Cout (Int b1)
                                   (print Cout (SetBase Hex)
                                      (print Cout (Str "LSM6DS33 WHO_AM_I = 0x") w2))))))))
                 w7)
    by (repeat (eapply silent_trans; [eassumption|]); split; reflexivity).
  destruct Hs as [Hc7 Hz7].
  cbn [puts bind]. repeat apply sound_put_cout.
  pose proof (bytes_in_range n1) as Hr1. rewrite Hb1 in Hr1. inversion Hr1; subst.
  pose proof (bytes_in_range n2) as Hr2. rewrite Hb2 in Hr2. inversion Hr2; subst.
  eapply sound_bind; [apply while_sound | | intros ? ? ? []].
  - reflexivity.
  - reflexivity.
  - intros n8 w8 (Hm8 & Hl8 & Hc8 & Hz8).
    exists b1, b2, (bytes_in n8).
    rewrite !calls_app, !bytes_in_app, Hm1, Hm2, Hm3, Hm4, Hm5, Hm6, Hm7, Hm8.
    rewrite Hb1, Hb2, Hb3, Hb4, Hb5, Hb6, Hb7.
    split; [reflexivity|]. split; [reflexivity|]. split; [exact Hl8|].
    rewrite Hc8, Hz8. cbn [print cout insert slept buf base width].
    rewrite Hc7, Hz7. cbn [print cout insert slept buf base width].
    rewrite Hc2, Hz2, Hc1, Hz1, Hc0, Hz0.
    split; [|reflexivity].
    f_equal. unfold id_lines, header. cbn [fmt_num boot cout fresh buf width].
    rewrite !pad_0, !append_assoc.
    rewrite !(Z.mod_small _ (2 ^ 32)) by lia.
    reflexivity.
Qed.

End Soundness.

(** ** From the program logic to runs *)

Lemma since_app (w w' : world) (new : list entry) :
  log w' = log w ++ new -> since w w' = new.
Proof.
  unfold since. intros ->.
  rewrite skipn_app, skipn_all, Nat.sub_diag. reflexivity.
Qed.

Lemma no_failure_last (pre : list entry) (c : syscall) (r : reply) :
  fails c r = true -> no_failure (pre ++ [(c, r)]) = false.
Proof.
  intros H. rewrite no_failure_app. simpl. rewrite H. apply andb_false_r.
Qed.

(** A straight-line program during which nothing failed has returned. *)
Lemma sound_done {A : Type} (strerror : Z -> string) (os : oracle) (w : world)
    (p : prog A) (Q : list entry -> A -> world -> Prop) :
  sound_at strerror os w p Q never ->
  no_failure (since w (snd (run os p w))) = true ->
  exists a, fst (run os p w) = Done a /\
            Q (since w (snd (run os p w))) a (snd (run os p w)).
Proof.
  intros (new & Hl & H) Hok. rewrite (since_app _ _ _ Hl) in *.
  destruct (fst (run os p w)) as [a|st|].
  - exists a. split; [reflexivity | apply H].
  - destruct H as (_ & pre & c & r & -> & _ & Hf & _).
    rewrite (no_failure_last _ _ _ Hf) in Hok. discriminate.
  - destruct H as (_ & _ & []).
Qed.

(** * The specification, statement by statement *)

(** ** Reading a word *)

(** C1. [read16_le] makes two register reads, the second at the register
    after [reg_l]; when neither fails, the byte of the first is the low half
    and the byte of the second the high half of the result, taken as a
    signed two's-complement 16-bit number.  Low byte 0x34 under high byte
    0x12 gives 4660; 0xFF under 0xFF gives -1. *)
Theorem read16_le_little_endian (strerror : Z -> string) :
  (forall os fd addr reg_l w,
      let res := run os (read16_le strerror fd addr reg_l) w in
      no_failure (since w (snd res)) = true ->
      exists r1 r2 r3 r4 r5 r6,
        since w (snd res) =
          [(select fd addr, r1); (sys_write fd [reg_l], r2); (sys_read fd 1, r3);
           (select fd addr, r4); (sys_write fd [(reg_l + 1) mod 256], r5);
           (sys_read fd 1, r6)] /\
        fst res =
          Done (let u := r_data r3 mod 256 + 256 * (r_data r6 mod 256) in
                if u <? 32768 then u else u - 65536)) /\
  fst (run (sim (fun _ reg => if reg =? 0x28 then 0x34 else 0x12))
           (read16_le strerror 3 0x6B 0x28) boot) = Done 4660 /\
  fst (run (sim (fun _ _ => 0xFF)) (read16_le strerror 3 0x6B 0x28) boot) = Done (-1).
Proof.
  split; [|split; reflexivity].
  intros os fd addr reg_l w res Hok. subst res.
  destruct (sound_done _ _ _ _ _ (read16_le_sound strerror os w fd addr reg_l) Hok)
    as (v & Hv & Hc & (lo & hi & Hb & ->) & _).
  rewrite Hv. clear Hv Hok.
  destruct (since w _) as [|[c1 r1] [|[c2 r2] [|[c3 r3] [|[c4 r4] [|[c5 r5] [|[c6 r6] [|? ?]]]]]]];
    try discriminate.
  unfold calls in Hc. simpl in Hc. inversion Hc; subst.
  simpl in Hb. inversion Hb; subst.
  exists r1, r2, r3, r4, r5, r6. split; reflexivity.
Qed.

Lemma read16_le_little_endian_witness :
  let os := sim (fun _ reg => if reg =? 0x22 then 0xE8 else 0xFD) in
  let res := run os (read16_le strerror_linux 3 0x6B 0x22) boot in
  no_failure (since boot (snd res)) = true /\
  exists r1 r2 r3 r4 r5 r6,
    since boot (snd res) =
      [(select 3 0x6B, r1); (sys_write 3 [0x22], r2); (sys_read 3 1, r3);
       (select 3 0x6B, r4); (sys_write 3 [(0x22 + 1) mod 256], r5);
       (sys_read 3 1, r6)] /\
    fst res =
      Done (let u := r_data r3 mod 256 + 256 * (r_data r6 mod 256) in
            if u <? 32768 then u else u - 65536).
Proof.
  split; [reflexivity|].
  apply (proj1 (read16_le_little_endian strerror_linux)). reflexivity.
Defined.

(** C9. The register of the high byte is [reg_l + 1] reduced modulo 256:
    [read16_le] at register 0xFF reads its high byte from register 0x00 and
    returns.  The registers of one sample frame are the three base registers
    plus 0..5, reduced the same way. *)
Theorem high_register_wraps (strerror : Z -> string) :
  (forall os fd addr reg_l w,
      let res := run os (read16_le strerror fd addr reg_l) w in
      no_failure (since w (snd res)) = true ->
      pointers (calls (since w (snd res))) = [reg_l; (reg_l + 1) mod 256] /\
      exists v, fst res = Done v) /\
  (let dev := sim (fun _ reg => if reg =? 0xFF then 0x34 else if reg =? 0x00 then 0x12 else 0x77) in
   let res := run dev (read16_le strerror 3 0x6B 0xFF) boot in
   pointers (calls (log (snd res))) = [0xFF; 0x00] /\ fst res = Done 4660) /\
  (forall os fd w,
      let res := run os (loop_body strerror fd) w in
      no_failure (since w (snd res)) = true ->
      pointers (calls (since w (snd res))) =
        map (fun k => (REG_OUTX_L_G + k) mod 256) [0; 1; 2; 3; 4; 5] ++
        map (fun k => (REG_OUTX_L_XL + k) mod 256) [0; 1; 2; 3; 4; 5] ++
        map (fun k => (REG_OUT_X_L + k) mod 256) [0; 1; 2; 3; 4; 5]).
Proof.
  split; [|split; [split; reflexivity|]].
  - intros os fd addr reg_l w res Hok. subst res.
    destruct (sound_done _ _ _ _ _ (read16_le_sound strerror os w fd addr reg_l) Hok)
      as (v & Hv & Hc & _). rewrite Hc. split; [reflexivity | now exists v].
  - intros os fd w res Hok. subst res.
    destruct (sound_done _ _ _ _ _ (loop_body_sound strerror os w fd) Hok)
      as (v & _ & Hc & _). rewrite Hc. reflexivity.
Qed.

Lemma high_register_wraps_witness :
  let os := sim (fun _ reg => reg) in
  let res := run os (read16_le strerror_linux 3 0x1E 0xFF) boot in
  no_failure (since boot (snd res)) = true /\
  (pointers (calls (since boot (snd res))) = [0xFF; (0xFF + 1) mod 256] /\
   exists v, fst res = Done v).
Proof.
  split; [reflexivity|].
  apply (proj1 (high_register_wraps strerror_linux)). reflexivity.
Defined.

(** ** One iteration of the sample loop *)

(** C4. An iteration in which no call fails reads, in this order, the six
    bytes of the gyroscope's output registers, the six of the
    accelerometer's (both on the LSM6DS33) and the six of the magnetometer's
    (on the LIS3MDL), low byte before high byte; the nine words they form
    are what the iteration shows. *)
Theorem sample_frame_order (strerror : Z -> string) (os : oracle) (fd : Z) (w : world) :
  let res := run os (loop_body strerror fd) w in
  no_failure (since w (snd res)) = true ->
  fst res = Done tt /\
  calls (since w (snd res)) =
    flat_map (read_txn fd)
      [(ADDR_LSM6, REG_OUTX_L_G); (ADDR_LSM6, REG_OUTX_L_G + 1);
       (ADDR_LSM6, REG_OUTX_L_G + 2); (ADDR_LSM6, REG_OUTX_L_G + 3);
       (ADDR_LSM6, REG_OUTX_L_G + 4); (ADDR_LSM6, REG_OUTX_L_G + 5);
       (ADDR_LSM6, REG_OUTX_L_XL); (ADDR_LSM6, REG_OUTX_L_XL + 1);
       (ADDR_LSM6, REG_OUTX_L_XL + 2); (ADDR_LSM6, REG_OUTX_L_XL + 3);
       (ADDR_LSM6, REG_OUTX_L_XL + 4); (ADDR_LSM6, REG_OUTX_L_XL + 5);
       (ADDR_LIS3, REG_OUT_X_L); (ADDR_LIS3, REG_OUT_X_L + 1);
       (ADDR_LIS3, REG_OUT_X_L + 2); (ADDR_LIS3, REG_OUT_X_L + 3);
       (ADDR_LIS3, REG_OUT_X_L + 4); (ADDR_LIS3, REG_OUT_X_L + 5)] /\
  exists gx gy gz ax ay az mx my mz,
    words (bytes_in (since w (snd res))) = [gx; gy; gz; ax; ay; az; mx; my; mz] /\
    (base (cout w) = Dec ->
     buf (cout (snd res)) = buf (cout w) +++ frame_line gx gy gz ax ay az mx my mz).
Proof.
  intros res Hok. subst res.
  destruct (sound_done _ _ _ _ _ (loop_body_sound strerror os w fd) Hok)
    as ([] & Hv & Hc & Hlen & Hcout & _).
  split; [exact Hv|]. split; [exact Hc|].
  destruct (bytes_in (since w _)) as [|b1 bs]; [discriminate|].
  do 17 (destruct bs as [|? bs]; [discriminate|]).
  destruct bs; [|discriminate].
  do 9 eexists. split; [reflexivity|].
  intros Hbase. rewrite (Hcout Hbase). cbn [buf words lines].
  now rewrite append_nil_r.
Qed.

Lemma sample_frame_order_witness :
  let os := sim (fun addr reg => (addr + 7 * reg) mod 256) in
  let res := run os (loop_body strerror_linux 3) boot in
  no_failure (since boot (snd res)) = true /\
  fst res = Done tt /\
  words (bytes_in (since boot (snd res))) =
    [24665; 28263; 31861; -30077; -26479; -22881; 15670; 19268; 22866].
Proof.
  split; [reflexivity|].
  destruct (sample_frame_order strerror_linux
              (sim (fun addr reg => (addr + 7 * reg) mod 256)) 3 boot)
    as (Hd & _ & _); [reflexivity|].
  split; [exact Hd | reflexivity].
Defined.

(** ** Runs of the whole program *)

(** The three ways a run of [main] can stand after [fuel] iterations. *)
Lemma main_cases (strerror : Z -> string) (os : oracle) (fuel : nat) :
  let res := run os (main strerror fuel) boot in
  let fd := r_ret (os [] (sys_open I2C_DEV O_RDWR)) in
  match fst res with
  | Done _ => False
  | Running =>
      no_failure (log (snd res)) = true /\
      cerr (snd res) = fresh /\
      exists b1 b2 data,
        calls (log (snd res)) =
          prologue fd ++ List.concat (repeat (frame_calls fd) fuel) /\
        bytes_in (log (snd res)) = b1 :: b2 :: data /\
        List.length data = (18 * fuel)%nat /\
        cout (snd res) =
          mkStream (id_lines b1 b2 +++ header +++ lines (words data)) Dec 0 /\
        slept (snd res) = repeat 50000 fuel
  | Exited st =>
      st = 1 /\
      exists pre c r,
        log (snd res) = pre ++ [(c, r)] /\ no_failure pre = true /\
        fails c r = true /\
        buf (cerr (snd res)) = diagnostic strerror c r
  end.
Proof.
  intros res fd. subst res fd.
  destruct (main_sound strerror os fuel) as (new & Hl & H).
  change (log boot ++ new) with new in Hl. rewrite Hl.
  change (width (cerr boot)) with 0%nat in H.
  change (cerr boot) with fresh in H.
  destruct (fst (run os (main strerror fuel) boot)) as [v|st|].
  - destruct H as (_ & _ & []).
  - destruct H as (-> & pre & c & r & -> & Hok & Hf & Hbuf).
    split; [reflexivity|]. exists pre, c, r. repeat split; auto.
  - destruct H as (Hok & He & H). repeat split; auto.
Qed.

(** ** Failures *)

(** C5. Whatever call of a run fails (a negative return from [open] or
    [ioctl], a [write] or [read] that did not transfer exactly what was asked
    for), it is the last call of the run: the program has exited with status
    1, and the error stream holds the operation that failed and the system's
    description of the error. *)
Theorem failure_is_fatal (strerror : Z -> string) (os : oracle) (fuel : nat)
    (pre post : list entry) (c : syscall) (r : reply) :
  let res := run os (main strerror fuel) boot in
  log (snd res) = pre ++ (c, r) :: post ->
  fails c r = true ->
  post = [] /\
  no_failure pre = true /\
  fst res = Exited 1 /\
  buf (cerr (snd res)) = operation c +++ ": " +++ strerror (r_errno r) +++ nl.
Proof.
  intros res Hl Hf. subst res.
  pose proof (main_cases strerror os fuel) as H. cbv zeta in H.
  destruct (fst (run os (main strerror fuel) boot)) as [v|st|].
  - destruct H.
  - destruct H as (-> & pre' & c' & r' & Hl' & Hok & Hf' & Hbuf).
    rewrite Hl' in Hl. symmetry in Hl.
    destruct (failure_is_last pre post pre' (c, r) (c', r') Hl Hok Hf)
      as (-> & -> & E). inversion E; subst. auto.
  - destruct H as (Hok & _). rewrite Hl, no_failure_app in Hok. simpl in Hok.
    rewrite Hf in Hok. simpl in Hok. rewrite andb_false_r in Hok. discriminate.
Qed.

Lemma failure_is_fatal_witness :
  let os := faulty 5 (mkReply 0 0 5) (sim idle_regs) in
  let res := run os (main strerror_linux 2) boot in
  let pre := firstn 5 (log (snd res)) in
  let c := sys_write 3 [0x0F] in
  let r := mkReply 0 0 5 in
  (log (snd res) = pre ++ (c, r) :: [] /\ fails c r = true) /\
  ([] = @nil entry /\
   no_failure pre = true /\
   fst res = Exited 1 /\
   buf (cerr (snd res)) = "I2C write(reg) failed: Input/output error" +++ nl).
Proof.
  split; [split; reflexivity|].
  apply (failure_is_fatal strerror_linux (faulty 5 (mkReply 0 0 5) (sim idle_regs)) 2
           (firstn 5 (log (snd (run (faulty 5 (mkReply 0 0 5) (sim idle_regs))
                                    (main strerror_linux 2) boot))))
           [] (sys_write 3 [0x0F]) (mkReply 0 0 5)); reflexivity.
Defined.

(** The other three kinds of failure, on a simulated bus: a device select
    refused during configuration, a register write that transferred one byte
    of two, a read that returned nothing in the middle of the first frame. *)
Example select_failure :
  let res := run (faulty 7 (mkReply (-1) 0 121) (sim idle_regs)) (main strerror_linux 2) boot in
  fst res = Exited 1 /\
  List.length (log (snd res)) = 8%nat /\
  buf (cerr (snd res)) = "Failed to set I2C slave 0x6b: Remote I/O error" +++ nl.
Proof. repeat split. Qed.

Example short_register_write :
  let res := run (faulty 12 (mkReply 1 0 5) (sim idle_regs)) (main strerror_linux 2) boot in
  fst res = Exited 1 /\
  List.length (log (snd res)) = 13%nat /\
  buf (cerr (snd res)) = "I2C write(reg,val) failed: Input/output error" +++ nl.
Proof. repeat split. Qed.

Example short_read_while_sampling :
  let res := run (faulty 25 (mkReply 0 0 5) (sim idle_regs)) (main strerror_linux 2) boot in
  fst res = Exited 1 /\
  List.length (log (snd res)) = 26%nat /\
  slept (snd res) = [] /\
  buf (cerr (snd res)) = "I2C read failed: Input/output error" +++ nl.
Proof. repeat split. Qed.

(** C6. When the bus device node cannot be opened the program exits with
    status 1 having made no other call: no device was selected, no register
    read or written. *)
Theorem open_failure_stops (strerror : Z -> string) (os : oracle) (fuel : nat) :
  let r := os [] (sys_open "/dev/i2c-1" O_RDWR) in
  r_ret r < 0 ->
  run os (main strerror fuel) boot =
    (Exited 1,
     mkWorld [(sys_open "/dev/i2c-1" O_RDWR, r)] [] fresh
       (mkStream ("Failed to open /dev/i2c-1: " +++ strerror (r_errno r) +++ nl) Dec 0)).
Proof.
  intros r Hr. unfold main. rewrite run_bind.
  unfold i2c_open, call. cbn [bind run].
  change (os (log boot) (sys_open I2C_DEV O_RDWR)) with r.
  apply Z.ltb_lt in Hr. rewrite Hr. reflexivity.
Qed.

Lemma open_failure_stops_witness :
  let os := faulty 0 (mkReply (-1) 0 2) (sim idle_regs) in
  r_ret (os [] (sys_open "/dev/i2c-1" O_RDWR)) < 0 /\
  run os (main strerror_linux 3) boot =
    (Exited 1,
     mkWorld [(sys_open "/dev/i2c-1" O_RDWR, mkReply (-1) 0 2)] [] fresh
       (mkStream ("Failed to open /dev/i2c-1: No such file or directory" +++ nl) Dec 0)).
Proof.
  split; [reflexivity|].
  apply (open_failure_stops strerror_linux (faulty 0 (mkReply (-1) 0 2) (sim idle_regs)) 3).
  reflexivity.
Defined.

(** ** The loop *)

(** C8. No run of [main] returns, whatever the fuel; a run that exits does so
    with a status other than 0; and a run in which no call failed is still
    in its loop after as many iterations as the fuel allows. *)
Theorem loop_never_returns (strerror : Z -> string) (os : oracle) (fuel : nat) :
  let res := run os (main strerror fuel) boot in
  (forall v, fst res <> Done v) /\
  (forall st, fst res = Exited st -> st <> 0) /\
  (no_failure (log (snd res)) = true ->
   fst res = Running /\ slept (snd res) = repeat 50000 fuel).
Proof.
  intros res. subst res.
  pose proof (main_cases strerror os fuel) as H. cbv zeta in H.
  destruct (fst (run os (main strerror fuel) boot)) as [v|st|].
  - destruct H.
  - destruct H as (-> & pre & c & r & Hl & _ & Hf & _).
    split; [discriminate|]. split.
    + intros st E. inversion E. lia.
    + rewrite Hl, (no_failure_last _ _ _ Hf). discriminate.
  - destruct H as (_ & _ & b1 & b2 & data & _ & _ & _ & _ & Hz).
    split; [discriminate|]. split; [discriminate|]. intros _. split; [reflexivity | exact Hz].
Qed.

Lemma loop_never_returns_witness :
  let res := run (sim idle_regs) (main strerror_linux 4) boot in
  no_failure (log (snd res)) = true /\
  fst res = Running /\ slept (snd res) = repeat 50000 4.
Proof.
  split; [reflexivity|].
  apply (loop_never_returns strerror_linux (sim idle_regs) 4). reflexivity.
Defined.

(** C3. In a run in which no call failed, what follows the seventeen calls
    of the prologue is one block per iteration (that is, per data line
    shown), each block made of the same eighteen register reads; a register
    read is a device select for the register's device, the one-byte write of
    the register number and the one-byte read, in this order. *)
Theorem sample_loop_transactions (strerror : Z -> string) (os : oracle) (fuel : nat) :
  let res := run os (main strerror fuel) boot in
  let fd := r_ret (os [] (sys_open "/dev/i2c-1" O_RDWR)) in
  no_failure (log (snd res)) = true ->
  skipn 17 (calls (log (snd res))) =
    List.concat
      (repeat
         (flat_map (fun ar => [select fd (fst ar); sys_write fd [snd ar]; sys_read fd 1])
                   frame_regs)
         fuel) /\
  List.length frame_regs = 18%nat /\
  exists b1 b2 data,
    bytes_in (log (snd res)) = b1 :: b2 :: data /\
    List.length data = (18 * fuel)%nat /\
    buf (cout (snd res)) = id_lines b1 b2 +++ header +++ lines (words data).
Proof.
  intros res fd Hok. subst res.
  pose proof (main_cases strerror os fuel) as H. cbv zeta in H.
  destruct (fst (run os (main strerror fuel) boot)) as [v|st|].
  - destruct H.
  - destruct H as (_ & pre & c & r & Hl & _ & Hf & _).
    rewrite Hl, (no_failure_last _ _ _ Hf) in Hok. discriminate.
  - destruct H as (_ & _ & b1 & b2 & data & Hc & Hb & Hlen & Hcout & _).
    rewrite Hc. split; [reflexivity|]. split; [reflexivity|].
    exists b1, b2, data. rewrite Hcout. auto.
Qed.

Lemma sample_loop_transactions_witness :
  let os := sim (fun addr reg => (addr + 7 * reg) mod 256) in
  let res := run os (main strerror_linux 2) boot in
  no_failure (log (snd res)) = true /\
  skipn 17 (calls (log (snd res))) =
    List.concat
      (repeat
         (flat_map (fun ar => [select 3 (fst ar); sys_write 3 [snd ar]; sys_read 3 1])
                   frame_regs)
         2).
Proof.
  split; [reflexivity|].
  apply (sample_loop_transactions strerror_linux
           (sim (fun addr reg => (addr + 7 * reg) mod 256)) 2).
  reflexivity.
Defined.

(** ** Configuration *)

Lemma reg_writes_frames (fd addr : Z) (n : nat) :
  reg_writes addr (List.concat (repeat (frame_calls fd) n)) = [].
Proof.
  revert addr. induction n as [|n IH]; intros addr; [reflexivity|].
  cbn [repeat List.concat]. unfold frame_calls at 1.
  cbn [frame_regs flat_map read_txn app fst snd select reg_writes].
  apply IH.
Qed.

(** C2, as the program has it.  In a run in which no call failed the devices
    are addressed in this order: identification of the LSM6DS33 and of the
    LIS3MDL (register 0x0F of each), then five register writes, two to the
    LSM6DS33 (accelerometer 0x10 := 0x20, gyroscope 0x11 := 0x24) and three
    to the LIS3MDL (0x20 := 0x6C, 0x21 := 0x00, 0x22 := 0x00); no other
    register is ever written. *)
Theorem configuration_sequence (strerror : Z -> string) (os : oracle) (fuel : nat) :
  let res := run os (main strerror fuel) boot in
  let fd := r_ret (os [] (sys_open "/dev/i2c-1" O_RDWR)) in
  no_failure (log (snd res)) = true ->
  firstn 17 (calls (log (snd res))) =
    [sys_open "/dev/i2c-1" O_RDWR;
     select fd 0x6B; sys_write fd [0x0F]; sys_read fd 1;
     select fd 0x1E; sys_write fd [0x0F]; sys_read fd 1;
     select fd 0x6B; sys_write fd [0x10; 0x20];
     select fd 0x6B; sys_write fd [0x11; 0x24];
     select fd 0x1E; sys_write fd [0x20; 0x6C];
     select fd 0x1E; sys_write fd [0x21; 0x00];
     select fd 0x1E; sys_write fd [0x22; 0x00]] /\
  reg_writes 0 (calls (log (snd res))) =
    [(0x6B, 0x10, 0x20); (0x6B, 0x11, 0x24);
     (0x1E, 0x20, 0x6C); (0x1E, 0x21, 0x00); (0x1E, 0x22, 0x00)].
Proof.
  intros res fd Hok. subst res.
  pose proof (main_cases strerror os fuel) as H. cbv zeta in H.
  destruct (fst (run os (main strerror fuel) boot)) as [v|st|].
  - destruct H.
  - destruct H as (_ & pre & c & r & Hl & _ & Hf & _).
    rewrite Hl, (no_failure_last _ _ _ Hf) in Hok. discriminate.
  - destruct H as (_ & _ & b1 & b2 & data & Hc & _).
    rewrite Hc. split; [reflexivity|].
    cbn [prologue identify_regs config_writes flat_map read_txn write_txn app
         fst snd select reg_writes].
    now rewrite reg_writes_frames.
Qed.

Lemma configuration_sequence_witness :
  let res := run (sim idle_regs) (main strerror_linux 1) boot in
  no_failure (log (snd res)) = true /\
  reg_writes 0 (calls (log (snd res))) =
    [(0x6B, 0x10, 0x20); (0x6B, 0x11, 0x24);
     (0x1E, 0x20, 0x6C); (0x1E, 0x21, 0x00); (0x1E, 0x22, 0x00)].
Proof.
  split; [reflexivity|].
  apply (configuration_sequence strerror_linux (sim idle_regs) 1). reflexivity.
Defined.

(** C2, as stated: after identification, three register writes to the
    gyroscope/accelerometer device followed by three to the magnetometer.
    On a bus where nothing fails the third register write already goes to
    the magnetometer, and there are five writes, not six. *)
Lemma configuration_has_no_third_lsm6_write :
  let res := run (sim idle_regs) (main strerror_linux 0) boot in
  no_failure (log (snd res)) = true /\
  ~ (exists a1 a2 a3 m1 m2 m3,
        reg_writes 0 (calls (log (snd res))) = [a1; a2; a3; m1; m2; m3] /\
        fst (fst a1) = ADDR_LSM6 /\ fst (fst a2) = ADDR_LSM6 /\ fst (fst a3) = ADDR_LSM6 /\
        fst (fst m1) = ADDR_LIS3 /\ fst (fst m2) = ADDR_LIS3 /\ fst (fst m3) = ADDR_LIS3).
Proof.
  split; [reflexivity|].
  intros (a1 & a2 & a3 & m1 & m2 & m3 & H & _).
  vm_compute in H. discriminate.
Qed.

(** * Further properties of the code *)

(** ** Runs that exit *)

(** [l] is a beginning of [s]. *)
Definition prefix (l s : list syscall) : Prop := exists rest, s = l ++ rest.

(** The entries [new] are the calls of [script] up to some call of it: the
    transaction [script] was started and not carried through. *)
Definition started (new : list entry) (script : list syscall) : Prop :=
  new <> [] /\ prefix (calls new) script.

Lemma started_left (n : list entry) (s1 s : list syscall) :
  started n s1 -> prefix s1 s -> started n s.
Proof.
  intros [Hne [r1 ->]] [r2 ->]. split; [exact Hne|].
  exists (r1 ++ r2). now rewrite app_assoc.
Qed.

Lemma started_right (n1 n2 : list entry) (s1 s2 s : list syscall) :
  calls n1 = s1 -> s = s1 ++ s2 -> started n2 s2 -> started (n1 ++ n2) s.
Proof.
  intros <- -> [Hne [r ->]]. split.
  - destruct n1; [exact Hne | discriminate].
  - exists r. now rewrite calls_app, app_assoc.
Qed.

Section Exits.

Variable strerror : Z -> string.
Variable os : oracle.

(** What holds of the entries added and of the final state whenever the run
    of [p] from [w] ends in [std::exit]. *)
Definition exits_at {A : Type} (w : world) (p : prog A)
    (E : list entry -> world -> Prop) : Prop :=
  forall st w', run os p w = (Exited st, w') ->
                exists new, log w' = log w ++ new /\ E new w'.

Lemma exits_bind {A B : Type} (w : world) (p : prog A) (f : A -> prog B)
    (Q1 : list entry -> A -> world -> Prop) (R1 : list entry -> world -> Prop)
    (E : list entry -> world -> Prop) :
  sound_at strerror os w p Q1 R1 ->
  exits_at w p E ->
  (forall a n1 w1,
      Q1 n1 a w1 -> log w1 = log w ++ n1 ->
      exits_at w1 (f a) (fun n2 w' => E (n1 ++ n2) w')) ->
  exits_at w (bind p f) E.
Proof.
  intros (n1 & Hl1 & H1) Hp Hf st w' Hrun. rewrite run_bind in Hrun.
  destruct (run os p w) as [[a|st1|] w1] eqn:Ep; simpl in *.
  - destruct H1 as (_ & _ & HQ1).
    destruct (Hf a n1 w1 HQ1 Hl1 st w' Hrun) as (n2 & Hl2 & HE).
    exists (n1 ++ n2). split; [|exact HE]. now rewrite Hl2, Hl1, app_assoc.
  - inversion Hrun; subst. apply Hp with (st := st). exact Ep.
  - discriminate.
Qed.

Lemma exits_weaken {A : Type} (w : world) (p : prog A)
    (E E' : list entry -> world -> Prop) :
  exits_at w p E ->
  (forall new w', E new w' -> E' new w') ->
  exits_at w p E'.
Proof.
  intros H HE st w' Hrun. destruct (H st w' Hrun) as (new & Hl & He).
  exists new. auto.
Qed.

Lemma exits_ret {A : Type} (w : world) (a : A) (E : list entry -> world -> Prop) :
  exits_at w (Ret a) E.
Proof. intros st w' H. discriminate. Qed.

Lemma exits_put_cout {A : Type} (w : world) (i : item) (k : prog A)
    (E : list entry -> world -> Prop) :
  exits_at (print Cout i w) k E -> exits_at w (Put Cout i k) E.
Proof. intros H. exact H. Qed.

Lemma exits_sleep {A : Type} (w : world) (us : Z) (k : prog A)
    (E : list entry -> world -> Prop) :
  exits_at (nap us w) k E -> exits_at w (Sleep us k) E.
Proof. intros H. exact H. Qed.

(** *** The bus primitives *)

Ltac exit_here :=
  let H := fresh in
  cbn [bind run puts negb]; intros H; inversion H; subst; clear H;
  eexists; (split; [cbn [log print record]; rewrite <- ?app_assoc; reflexivity|]);
  (split; [split; [discriminate | eexists; reflexivity] | split; reflexivity]).

Lemma i2c_open_exits (w : world) (dev : string) :
  exits_at w (i2c_open strerror dev)
    (fun new w' => started new [sys_open dev O_RDWR] /\ silent w w').
Proof.
  intros st w'. unfold i2c_open, call. cbn [bind run].
  destruct (r_ret _ <? 0); [exit_here | discriminate].
Qed.

Lemma read8_exits (w : world) (fd addr reg : Z) :
  exits_at w (read8 strerror fd addr reg)
    (fun new w' => started new (read_txn fd (addr, reg)) /\ silent w w').
Proof.
  intros st w'. unfold read8, i2c_set_slave, call. cbn [bind run].
  destruct (r_ret _ <? 0); [exit_here|]. cbn [bind run].
  destruct (r_ret _ =? 1); cbn [negb]; [|exit_here]. cbn [bind run].
  destruct (r_ret _ =? 1); cbn [negb]; [discriminate | exit_here].
Qed.

Lemma write8_exits (w : world) (fd addr reg val : Z) :
  exits_at w (write8 strerror fd addr reg val)
    (fun new w' => started new (write_txn fd (addr, reg, val)) /\ silent w w').
Proof.
  intros st w'. unfold write8, i2c_set_slave, call. cbn [bind run].
  destruct (r_ret _ <? 0); [exit_here|]. cbn [bind run].
  destruct (r_ret _ =? 2); cbn [negb]; [discriminate | exit_here].
Qed.

Lemma read16_le_exits (w : world) (fd addr reg_l : Z) :
  exits_at w (read16_le strerror fd addr reg_l)
    (fun new w' =>
       started new (read_txn fd (addr, reg_l) ++ read_txn fd (addr, uint8_t (reg_l + 1))) /\
       silent w w').
Proof.
  unfold read16_le.
  eapply exits_bind; [apply read8_sound | eapply exits_weaken; [apply read8_exits|] |].
  - intros new w' [Hst Hs]. split; [|exact Hs].
    eapply started_left; [exact Hst | eexists; reflexivity].
  - intros lo n1 w1 (Hm1 & _ & Hs1) _.
    eapply exits_bind;
      [apply read8_sound | eapply exits_weaken; [apply read8_exits|] |
       intros; apply exits_ret].
    intros new w' [Hst Hs]. split.
    + eapply started_right; [exact Hm1 | reflexivity | exact Hst].
    + eapply silent_trans; eauto.
Qed.

(** *** One iteration, the loop, the whole program *)

Ltac in_frame :=
  let new := fresh "new" in
  let w' := fresh "w'" in
  let Hst := fresh "Hst" in
  let Hs := fresh "Hs" in
  intros new w' [Hst Hs]; split;
  [ repeat (eapply started_right; [eassumption | reflexivity |]);
    eapply started_left; [exact Hst | eexists; reflexivity]
  | repeat (eapply silent_trans; [eassumption|]); split; reflexivity ].

Ltac exit_word v n w' Hm Hs :=
  eapply exits_bind;
  [ apply read16_le_sound
  | eapply exits_weaken; [apply read16_le_exits | in_frame]
  | intros v n w' (Hm & _ & Hs) _ ].

Lemma loop_body_exits (w : world) (fd : Z) :
  exits_at w (loop_body strerror fd)
    (fun new w' => started new (frame_calls fd) /\ silent w w').
Proof.
  unfold loop_body.
  exit_word gx n1 w1 Hm1 Hs1.
  exit_word gy n2 w2 Hm2 Hs2.
  exit_word gz n3 w3 Hm3 Hs3.
  exit_word ax n4 w4 Hm4 Hs4.
  exit_word ay n5 w5 Hm5 Hs5.
  exit_word az n6 w6 Hm6 Hs6.
  exit_word mx n7 w7 Hm7 Hs7.
  exit_word my n8 w8 Hm8 Hs8.
  exit_word mz n9 w9 Hm9 Hs9.
  unfold usleep. cbn [puts bind].
  repeat apply exits_put_cout. apply exits_sleep. apply exits_ret.
Qed.

Lemma while_exits (fd : Z) (n : nat) : forall w,
  base (cout w) = Dec -> width (cout w) = 0%nat ->
  exits_at w (while n true (loop_body strerror fd))
    (fun new w' =>
       exists k done part,
         new = done ++ part /\ (k < n)%nat /\
         calls done = List.concat (repeat (frame_calls fd) k) /\
         started part (frame_calls fd) /\
         cout w' = mkStream (buf (cout w) +++ lines (words (bytes_in done))) Dec 0 /\
         slept w' = slept w ++ repeat 50000 k).
Proof.
  induction n as [|n IH]; intros w Hbase Hwidth.
  - intros st w' H. discriminate.
  - cbn [while].
    eapply exits_bind;
      [apply loop_body_sound | eapply exits_weaken; [apply loop_body_exits|] |].
    + intros new w' (Hst & Hc & Hz). exists 0%nat, [], new.
      rewrite Hc, Hz. cbn [bytes_in flat_map words lines repeat List.concat app].
      rewrite append_nil_r, app_nil_r.
      repeat split; try (apply Hst); try lia.
      destruct (cout w); simpl in *; congruence.
    + intros _ n1 w1 (Hc1 & Hlen1 & Hcout1 & Hsl1) _.
      specialize (Hcout1 Hbase).
      eapply exits_weaken; [apply IH; rewrite Hcout1; reflexivity|].
      intros new w' (k & done & part & -> & Hk & Hcd & Hst & Hcout & Hsl).
      exists (S k), (n1 ++ done), part.
      rewrite calls_app, bytes_in_app, Hc1, Hcd, Hcout, Hsl, Hcout1, Hsl1.
      cbn [buf repeat List.concat].
      rewrite lines_words_app, append_assoc, <- !app_assoc by exact Hlen1.
      repeat split; try (apply Hst); lia.
Qed.

(** The two halves of the prologue. *)
Definition identify_calls (fd : Z) : list syscall :=
  sys_open I2C_DEV O_RDWR :: flat_map (read_txn fd) identify_regs.

Definition configure_calls (fd : Z) : list syscall :=
  flat_map (write_txn fd) config_writes.

(** Where a run of [main] that has exited stood: in the identification of
    the devices, in their configuration, or in the frame after [k] complete
    ones; with what standard output shows and how often the program slept
    in each case. *)
Definition exit_stage (fd : Z) (fuel : nat) (new : list entry) (w' : world) : Prop :=
  (started new (identify_calls fd) /\ cout w' = fresh /\ slept w' = []) \/
  (exists ident part b1 b2,
      new = ident ++ part /\
      calls ident = identify_calls fd /\ bytes_in ident = [b1; b2] /\
      started part (configure_calls fd) /\
      cout w' = mkStream (id_lines b1 b2) Hex 0 /\ slept w' = []) \/
  (exists pro done part b1 b2 k,
      new = pro ++ done ++ part /\
      calls pro = prologue fd /\ bytes_in pro = [b1; b2] /\
      (k < fuel)%nat /\
      calls done = List.concat (repeat (frame_calls fd) k) /\
      started part (frame_calls fd) /\
      cout w' = mkStream (id_lines b1 b2 +++ header +++ lines (words (bytes_in done))) Dec 0 /\
      slept w' = repeat 50000 k).

Ltac in_identification :=
  let new := fresh "new" in
  let w' := fresh "w'" in
  let Hst := fresh "Hst" in
  let Hs := fresh "Hs" in
  intros new w' [Hst Hs]; left;
  assert (Hsil : silent boot w')
    by (repeat (eapply silent_trans; [eassumption|]); split; reflexivity);
  destruct Hsil as [Hc Hz]; split; [|split; [exact Hc | exact Hz]];
  repeat (eapply started_right; [first [eassumption | reflexivity] | reflexivity |]);
  eapply started_left; [exact Hst | eexists; reflexivity].

Ltac in_configuration e0 n1 n2 W2 HcW2 HzW2 Hid Hbid :=
  let new := fresh "new" in
  let w' := fresh "w'" in
  let Hst := fresh "Hst" in
  let Hs := fresh "Hs" in
  intros new w' [Hst Hs]; right; left;
  assert (Hsil : silent W2 w')
    by (repeat (eapply silent_trans; [eassumption|]); split; reflexivity);
  destruct Hsil as [Hc Hz];
  match goal with
  | |- exists _ _ _ _, [e0] ++ n1 ++ n2 ++ ?part = _ /\ _ =>
      exists ([e0] ++ n1 ++ n2), part
  end;
  do 2 eexists;
  split; [now rewrite <- !app_assoc|];
  split; [exact Hid|]; split; [exact Hbid|];
  split; [|split; [now rewrite Hc | now rewrite Hz]];
  repeat (eapply started_right; [eassumption | reflexivity |]);
  eapply started_left; [exact Hst | eexists; reflexivity].

Ltac write_step n w' Hm Hb Hs :=
  eapply exits_bind;
  [ apply write8_sound
  | eapply exits_weaken; [apply write8_exits | ]
  | intros _ n w' (Hm & Hb & Hs) _ ];
  [ match goal with
    | e0 := _, W2 := _, HcW2 : cout ?W = _, HzW2 : slept ?W = _,
      Hid : calls ([_] ++ ?n1 ++ ?n2) = _, Hbid : bytes_in _ = _ |- _ =>
        in_configuration e0 n1 n2 W HcW2 HzW2 Hid Hbid
    end
  | ].

Lemma main_exits (fuel : nat) :
  exits_at boot (main strerror fuel)
    (exit_stage (r_ret (os [] (sys_open I2C_DEV O_RDWR))) fuel).
Proof.
  unfold main.
  eapply exits_bind;
    [apply i2c_open_sound | eapply exits_weaken; [apply i2c_open_exits | in_identification] |].
  intros fd n0 w0 (-> & -> & Hs0) _.
  change (log boot) with (@nil entry).
  set (e0 := (sys_open I2C_DEV O_RDWR, os [] (sys_open I2C_DEV O_RDWR))).
  set (fd := r_ret (os [] (sys_open I2C_DEV O_RDWR))).
  eapply exits_bind;
    [apply read8_sound | eapply exits_weaken; [apply read8_exits | in_identification] |].
  intros b1 n1 w1 (Hm1 & Hb1 & Hs1) _.
  eapply exits_bind;
    [apply read8_sound | eapply exits_weaken; [apply read8_exits | in_identification] |].
  intros b2 n2 w2 (Hm2 & Hb2 & Hs2) _.
  cbn [puts bind]. repeat apply exits_put_cout.
  pose proof (bytes_in_range n1) as Hr1. rewrite Hb1 in Hr1. inversion Hr1; subst.
  pose proof (bytes_in_range n2) as Hr2. rewrite Hb2 in Hr2. inversion Hr2; subst.
  match goal with |- exits_at ?W _ _ => set (W2 := W) end.
  assert (HW2 : cout W2 = mkStream (id_lines b1 b2) Hex 0 /\ slept W2 = []).
  { assert (Hs : silent boot w2)
      by (repeat (eapply silent_trans; [eassumption|]); split; reflexivity).
    destruct Hs as [Hc Hz]. subst W2.
    cbn [print cout slept insert buf base width]. rewrite Hc, Hz.
    split; [|reflexivity]. f_equal.
    unfold id_lines. cbn [fmt_num boot cout fresh buf width].
    rewrite !pad_0, !append_assoc, !(Z.mod_small _ (2 ^ 32)) by lia.
    reflexivity. }
  destruct HW2 as [HcW2 HzW2].
  assert (Hid : calls ([e0] ++ n1 ++ n2) = identify_calls fd)
    by (rewrite !calls_app, Hm1, Hm2; reflexivity).
  assert (Hbid : bytes_in ([e0] ++ n1 ++ n2) = [b1; b2])
    by (rewrite !bytes_in_app, Hb1, Hb2; reflexivity).
  write_step n3 w3 Hm3 Hb3 Hs3.
  write_step n4 w4 Hm4 Hb4 Hs4.
  write_step n5 w5 Hm5 Hb5 Hs5.
  write_step n6 w6 Hm6 Hb6 Hs6.
  write_step n7 w7 Hm7 Hb7 Hs7.
  cbn [puts bind]. repeat apply exits_put_cout.
  match goal with |- exits_at ?W _ _ => set (W7 := W) end.
  assert (HW7 : cout W7 = mkStream (id_lines b1 b2 +++ header) Dec 0 /\ slept W7 = []).
  { assert (Hs : silent W2 w7)
      by (repeat (eapply silent_trans; [eassumption|]); split; reflexivity).
    destruct Hs as [Hc Hz]. subst W7.
    cbn [print cout slept insert buf base width]. rewrite Hc, Hz, HcW2, HzW2.
    split; [|reflexivity]. f_equal.
    unfold header. cbn [buf]. rewrite !pad_0, !append_assoc. reflexivity. }
  destruct HW7 as [HcW7 HzW7].
  eapply exits_bind;
    [ apply while_sound; rewrite HcW7; reflexivity
    | eapply exits_weaken; [apply while_exits; rewrite HcW7; reflexivity|]
    | intros ? ? ? [] ].
  intros new w' (k & done & part & -> & Hk & Hcd & Hst & Hcout & Hz).
  right. right.
  exists ([e0] ++ n1 ++ n2 ++ n3 ++ n4 ++ n5 ++ n6 ++ n7), done, part, b1, b2, k.
  rewrite Hcout, Hz, HcW7, HzW7. cbn [buf].
  rewrite !calls_app, !bytes_in_app, Hm1, Hm2, Hm3, Hm4, Hm5, Hm6, Hm7.
  rewrite Hb1, Hb2, Hb3, Hb4, Hb5, Hb6, Hb7, append_assoc.
  repeat split; try (apply Hst); try exact Hk; try exact Hcd.
  now rewrite <- !app_assoc.
Qed.

End Exits.

Lemma prefix_refl (l : list syscall) : prefix l l.
Proof. exists []. now rewrite app_nil_r. Qed.

Lemma prefix_app_r (l s t : list syscall) : prefix l s -> prefix l (s ++ t).
Proof. intros [r ->]. exists (r ++ t). now rewrite app_assoc. Qed.

Lemma prefix_app_l (p l s : list syscall) : prefix l s -> prefix (p ++ l) (p ++ s).
Proof. intros [r ->]. exists r. now rewrite app_assoc. Qed.

Lemma frames_split (f : list syscall) (k n : nat) :
  (k < n)%nat ->
  List.concat (repeat f n) =
  List.concat (repeat f k) ++ f ++ List.concat (repeat f (n - S k)).
Proof.
  intros H. replace n with (k + S (n - S k))%nat at 1 by lia.
  rewrite repeat_app, concat_app. reflexivity.
Qed.

(** A run of [main] that has exited, by the stage it stood in. *)
Lemma main_exited (strerror : Z -> string) (os : oracle) (fuel : nat) (st : Z) :
  let res := run os (main strerror fuel) boot in
  let fd := r_ret (os [] (sys_open I2C_DEV O_RDWR)) in
  fst res = Exited st ->
  exit_stage fd fuel (log (snd res)) (snd res).
Proof.
  intros res fd H. subst res fd.
  destruct (run os (main strerror fuel) boot) as [o w'] eqn:E.
  simpl in H. subst o.
  destruct (main_exits strerror os fuel st w' E) as (new & Hl & HE).
  simpl in *. rewrite Hl. exact HE.
Qed.

(** ** What every run does and never does *)

Lemma script_prefix (strerror : Z -> string) (os : oracle) (fuel : nat) :
  let res := run os (main strerror fuel) boot in
  let fd := r_ret (os [] (sys_open "/dev/i2c-1" O_RDWR)) in
  prefix (calls (log (snd res)))
         (prologue fd ++ List.concat (repeat (frame_calls fd) fuel)).
Proof.
  intros res fd. subst res fd.
  pose proof (main_cases strerror os fuel) as H.
  pose proof (main_exited strerror os fuel) as HE. cbv zeta in H, HE.
  destruct (fst (run os (main strerror fuel) boot)) as [v|st|].
  - destruct H.
  - clear H. destruct (HE st eq_refl)
      as [([_ Hp] & _) | [(ident & part & b1 & b2 & -> & Hi & _ & [_ Hp] & _)
                         | (pro & done & part & b1 & b2 & k & -> & Hc & _ & Hk & Hd & [_ Hp] & _)]].
    + apply prefix_app_r.
      change (prologue _) with (identify_calls (r_ret (os [] (sys_open I2C_DEV O_RDWR))) ++
                                configure_calls (r_ret (os [] (sys_open I2C_DEV O_RDWR)))).
      now apply prefix_app_r.
    + rewrite calls_app, Hi. apply prefix_app_r.
      change (prologue _) with (identify_calls (r_ret (os [] (sys_open I2C_DEV O_RDWR))) ++
                                configure_calls (r_ret (os [] (sys_open I2C_DEV O_RDWR)))).
      now apply prefix_app_l.
    + rewrite !calls_app, Hc, Hd, (frames_split _ k fuel Hk).
      apply prefix_app_l, prefix_app_l, prefix_app_r. exact Hp.
  - destruct H as (_ & _ & b1 & b2 & data & Hc & _). rewrite Hc. apply prefix_refl.
Qed.

(** X1. Whatever the devices and the operating system answer, and wherever
    the run stops, the calls made so far are a beginning of one fixed
    sequence: the prologue followed by the eighteen reads of each frame.
    Which call comes next never depends on the data read; and a run still
    in its loop has made all of them. *)
Theorem calls_follow_script (strerror : Z -> string) (os : oracle) (fuel : nat) :
  let res := run os (main strerror fuel) boot in
  let fd := r_ret (os [] (sys_open "/dev/i2c-1" O_RDWR)) in
  exists rest,
    prologue fd ++ List.concat (repeat (frame_calls fd) fuel) =
      calls (log (snd res)) ++ rest /\
    (fst res = Running -> rest = []).
Proof.
  intros res fd. subst res fd.
  destruct (script_prefix strerror os fuel) as [rest Hs].
  exists rest. split; [exact Hs|]. intros Hrun.
  pose proof (main_cases strerror os fuel) as H. cbv zeta in H.
  rewrite Hrun in H. destruct H as (_ & _ & b1 & b2 & data & Hc & _).
  change I2C_DEV with "/dev/i2c-1" in Hc.
  rewrite <- Hc in Hs. rewrite <- (app_nil_r (calls _)) in Hs at 1.
  apply app_inv_head in Hs. now symmetry.
Qed.

(** The calls the program may make on descriptor [fd]: open the bus node for
    reading and writing, select one of the two devices, write one or two
    bytes, read one byte.  It may not close the descriptor. *)
Definition permitted (fd : Z) (c : syscall) : bool :=
  match c with
  | sys_open dev flags => String.eqb dev "/dev/i2c-1" && (flags =? O_RDWR)
  | sys_ioctl f request addr =>
      (f =? fd) && (request =? I2C_SLAVE) && ((addr =? 0x6B) || (addr =? 0x1E))
  | sys_write f bytes =>
      (f =? fd) && (Nat.eqb (List.length bytes) 1 || Nat.eqb (List.length bytes) 2)
  | sys_read f count => (f =? fd) && (count =? 1)
  | sys_close _ => false
  end.

(** Every write directly follows a device select and every read directly
    follows the one-byte write of a register number; [prev] is the call
    before the first of [l]. *)
Fixpoint guarded (prev : option syscall) (l : list syscall) : bool :=
  match l with
  | [] => true
  | c :: l' =>
      match c, prev with
      | sys_write _ _, Some (sys_ioctl _ _ _) => guarded (Some c) l'
      | sys_write _ _, _ => false
      | sys_read _ _, Some (sys_write _ [_]) => guarded (Some c) l'
      | sys_read _ _, _ => false
      | _, _ => guarded (Some c) l'
      end
  end.

Lemma permitted_frames (fd : Z) (n : nat) :
  forallb (permitted fd) (List.concat (repeat (frame_calls fd) n)) = true.
Proof.
  induction n as [|n IH]; [reflexivity|].
  cbn [repeat List.concat]. rewrite forallb_app, IH, andb_true_r.
  unfold frame_calls. simpl. rewrite !Z.eqb_refl. reflexivity.
Qed.

Lemma guarded_prefix (l rest : list syscall) : forall prev,
  guarded prev (l ++ rest) = true -> guarded prev l = true.
Proof.
  induction l as [|c l IH]; intros prev H; [reflexivity|].
  simpl in *. destruct c; try (now apply IH).
  - destruct prev as [[]|]; try discriminate. now apply IH.
  - destruct prev as [[? ?|? ? ?|? [|? [|]]|? ?|?]|]; try discriminate. now apply IH.
Qed.

Lemma guarded_frames (fd : Z) (n : nat) : forall prev,
  guarded prev (List.concat (repeat (frame_calls fd) n)) = true.
Proof.
  induction n as [|n IH]; intros prev; [reflexivity|].
  cbn [repeat List.concat]. unfold frame_calls at 1.
  cbn [frame_regs flat_map read_txn app fst snd select guarded].
  apply IH.
Qed.

(** X2. In no run does the program make any call but these: the open of
    [/dev/i2c-1] for reading and writing, device selects of address 0x6B or
    0x1E, writes of one or two bytes and reads of one byte, all on the
    descriptor [open] returned.  In particular the descriptor is never
    closed: the [close] after the loop is never reached. *)
Theorem main_only_calls (strerror : Z -> string) (os : oracle) (fuel : nat) :
  let res := run os (main strerror fuel) boot in
  let fd := r_ret (os [] (sys_open "/dev/i2c-1" O_RDWR)) in
  forallb (permitted fd) (calls (log (snd res))) = true.
Proof.
  intros res fd. subst res.
  destruct (script_prefix strerror os fuel) as [rest Hs]. fold fd in Hs.
  assert (H : forallb (permitted fd)
                (prologue fd ++ List.concat (repeat (frame_calls fd) fuel)) = true).
  { rewrite forallb_app, permitted_frames, andb_true_r.
    unfold prologue. simpl. rewrite !Z.eqb_refl. reflexivity. }
  rewrite Hs, forallb_app in H. now apply andb_true_iff in H.
Qed.

(** X3. In every run, failed or not, no byte is transferred to or from a
    device that was not selected just before: each write directly follows a
    device select, each read directly follows the one-byte write that names
    the register. *)
Theorem transfers_follow_select (strerror : Z -> string) (os : oracle) (fuel : nat) :
  guarded None (calls (log (snd (run os (main strerror fuel) boot)))) = true.
Proof.
  destruct (script_prefix strerror os fuel) as [rest Hs].
  apply guarded_prefix with (rest := rest). rewrite <- Hs.
  unfold prologue.
  cbn [identify_regs config_writes flat_map read_txn write_txn app fst snd select guarded].
  apply guarded_frames.
Qed.

Lemma calls_follow_script_witness :
  let res := run (sim idle_regs) (main strerror_linux 2) boot in
  fst res = Running /\
  exists rest,
    prologue 3 ++ List.concat (repeat (frame_calls 3) 2) = calls (log (snd res)) ++ rest /\
    rest = [].
Proof.
  split; [reflexivity|].
  destruct (calls_follow_script strerror_linux (sim idle_regs) 2) as (rest & Hs & Hr).
  exists rest. split; [exact Hs | apply Hr; reflexivity].
Defined.

(** ** Where a run exits *)

(** X4. A run that exits does so with status 1 in one of three stages.  In
    the identification of the devices: nothing is on standard output.  In
    their configuration: standard output shows the two identification lines
    and nothing else (the header is shown only once all five register writes
    have succeeded).  While sampling, in the frame after [k] complete ones:
    standard output shows the header and [k] data lines, and the program has
    slept [k] times; the frame in which the failure occurred is not shown. *)
Theorem exit_stages (strerror : Z -> string) (os : oracle) (fuel : nat) (st : Z) :
  let res := run os (main strerror fuel) boot in
  let fd := r_ret (os [] (sys_open "/dev/i2c-1" O_RDWR)) in
  fst res = Exited st ->
  st = 1 /\ exit_stage fd fuel (log (snd res)) (snd res).
Proof.
  intros res fd Hx. split.
  - pose proof (main_cases strerror os fuel) as H. cbv zeta in H.
    subst res. rewrite Hx in H. apply H.
  - apply (main_exited strerror os fuel st Hx).
Qed.

Lemma exit_stages_witness :
  let os := faulty 81 (mkReply 0 0 5) (sim (fun addr reg => (addr + 7 * reg) mod 256)) in
  let res := run os (main strerror_linux 3) boot in
  fst res = Exited 1 /\
  (1 = 1 /\ exit_stage 3 3 (log (snd res)) (snd res)).
Proof.
  split; [reflexivity|].
  apply (exit_stages strerror_linux
           (faulty 81 (mkReply 0 0 5) (sim (fun addr reg => (addr + 7 * reg) mod 256)))
           3 1).
  reflexivity.
Defined.

Lemma length_append (s t : string) :
  String.length (s +++ t) = (String.length s + String.length t)%nat.
Proof. induction s as [|a s IH]; simpl; [reflexivity | now rewrite IH]. Qed.

Lemma diagnostic_not_empty (strerror : Z -> string) (c : syscall) (r : reply) :
  diagnostic strerror c r <> "".
Proof.
  intros H. apply (f_equal String.length) in H.
  unfold diagnostic in H. rewrite !length_append in H. simpl in H. lia.
Qed.

(** X5. Standard error stays empty as long as the program runs: something
    is written to it exactly when the program exits. *)
Theorem stderr_only_on_exit (strerror : Z -> string) (os : oracle) (fuel : nat) :
  let res := run os (main strerror fuel) boot in
  buf (cerr (snd res)) = "" <-> fst res = Running.
Proof.
  intros res. subst res.
  pose proof (main_cases strerror os fuel) as H. cbv zeta in H.
  destruct (fst (run os (main strerror fuel) boot)) as [v|st|].
  - destruct H.
  - destruct H as (_ & pre & c & r & _ & _ & _ & Hb). rewrite Hb.
    split; [intros E; now apply diagnostic_not_empty in E | discriminate].
  - destruct H as (_ & -> & _). split; reflexivity.
Qed.

Lemma stderr_only_on_exit_witness :
  let res := run (sim idle_regs) (main strerror_linux 1) boot in
  fst res = Running /\ buf (cerr (snd res)) = "".
Proof.
  split; [reflexivity|].
  apply (proj2 (stderr_only_on_exit strerror_linux (sim idle_regs) 1)). reflexivity.
Defined.



(** ** The width of a data line *)

(** [f] holds of every positive number of at most [n] binary digits. *)
Fixpoint below (n : nat) (f : positive -> bool) : bool :=
  match n with
  | O => true
  | S m => f 1%positive && below m (fun p => f p~0%positive) && below m (fun p => f p~1%positive)
  end.

Lemma below_spec (p : positive) : forall (n : nat) (f : positive -> bool),
  Z.pos p < 2 ^ Z.of_nat n -> below n f = true -> f p = true.
Proof.
  induction p as [q IH|q IH|]; intros n f Hp Hb;
    (destruct n as [|m]; [simpl in Hp; lia|]);
    rewrite Nat2Z.inj_succ, Z.pow_succ_r in Hp by lia;
    simpl in Hb; apply andb_true_iff in Hb as [Hb H1];
    apply andb_true_iff in Hb as [H0 Hb].
  - apply (IH m (fun p => f p~1%positive)); [lia | exact H1].
  - apply (IH m (fun p => f p~0%positive)); [lia | exact Hb].
  - exact H0.
Qed.

Definition six_wide (z : Z) : bool := Nat.eqb (String.length (field z)) 6.

Lemma shorts_six_wide :
  below 15 (fun p => six_wide (Z.pos p) && six_wide (Z.neg p)) = true.
Proof. vm_compute. reflexivity. Qed.

(** Every [int16_t] fills its field of six characters exactly or leaves
    room: the field is six characters wide. *)
Lemma field_width (z : Z) :
  -32768 <= z <= 32767 -> String.length (field z) = 6%nat.
Proof.
  intros Hz. apply Nat.eqb_eq. fold (six_wide z).
  destruct z as [|p|p]; [reflexivity| |].
  - assert (H := below_spec p 15 _ ltac:(simpl; lia) shorts_six_wide).
    now apply andb_true_iff in H.
  - destruct (Pos.eq_dec p 32768) as [->|Hne]; [reflexivity|].
    assert (H := below_spec p 15 _ ltac:(simpl; lia) shorts_six_wide).
    now apply andb_true_iff in H.
Qed.

Lemma word_le_range (lo hi : Z) :
  0 <= lo < 256 -> 0 <= hi < 256 -> -32768 <= word_le lo hi <= 32767.
Proof.
  intros Hlo Hhi. unfold word_le.
  destruct (lo + 256 * hi <? 32768) eqn:E;
    [apply Z.ltb_lt in E | apply Z.ltb_ge in E]; lia.
Qed.

Lemma frame_line_width (gx gy gz ax ay az mx my mz : Z) :
  -32768 <= gx <= 32767 -> -32768 <= gy <= 32767 -> -32768 <= gz <= 32767 ->
  -32768 <= ax <= 32767 -> -32768 <= ay <= 32767 -> -32768 <= az <= 32767 ->
  -32768 <= mx <= 32767 -> -32768 <= my <= 32767 -> -32768 <= mz <= 32767 ->
  String.length (frame_line gx gy gz ax ay az mx my mz) = 67%nat.
Proof.
  intros. unfold frame_line.
  rewrite !length_append, !field_width by assumption. reflexivity.
Qed.

(** X7. Every data line is 67 characters long, whatever the sensors
    deliver: an iteration without failure, on a standard output in decimal
    mode, appends exactly 67 characters (nine fields of six, their
    separators and the carriage return), so that each line covers the one
    before. *)
Theorem data_line_width (strerror : Z -> string) (os : oracle) (fd : Z) (w : world) :
  let res := run os (loop_body strerror fd) w in
  no_failure (since w (snd res)) = true ->
  base (cout w) = Dec ->
  String.length (buf (cout (snd res))) = (String.length (buf (cout w)) + 67)%nat.
Proof.
  intros res Hok Hbase. subst res.
  destruct (sound_done _ _ _ _ _ (loop_body_sound strerror os w fd) Hok)
    as ([] & _ & _ & Hlen & Hcout & _).
  rewrite (Hcout Hbase). cbn [buf]. rewrite length_append. f_equal.
  pose proof (bytes_in_range (since w (snd (run os (loop_body strerror fd) w)))) as Hr.
  destruct (bytes_in (since w _)) as [|b1 bs]; [discriminate|].
  do 17 (destruct bs as [|? bs]; [discriminate|]).
  destruct bs; [|discriminate].
  repeat match goal with
         | H : Forall _ (_ :: _) |- _ => inversion H; subst; clear H
         end.
  cbn [words lines]. rewrite append_nil_r.
  apply frame_line_width; now apply word_le_range.
Qed.

Lemma data_line_width_witness :
  let os := sim (fun addr reg => if reg =? 0x23 then 0x80 else 0) in
  let res := run os (loop_body strerror_linux 3) boot in
  (no_failure (since boot (snd res)) = true /\ base (cout boot) = Dec) /\
  String.length (buf (cout (snd res))) = (String.length (buf (cout boot)) + 67)%nat.
Proof.
  split; [split; reflexivity|].
  apply (data_line_width strerror_linux
           (sim (fun addr reg => if reg =? 0x23 then 0x80 else 0)) 3 boot);
    reflexivity.
Defined.

(** ** Words and bytes *)

(** What [read16_le] returns when nothing failed, from the two bytes read. *)
Lemma read16_le_value (strerror : Z -> string) (os : oracle) (fd addr reg_l : Z) (w : world) :
  let res := run os (read16_le strerror fd addr reg_l) w in
  no_failure (since w (snd res)) = true ->
  exists lo hi,
    0 <= lo < 256 /\ 0 <= hi < 256 /\
    bytes_in (since w (snd res)) = [lo; hi] /\
    fst res = Done (word_le lo hi).
Proof.
  intros res Hok. subst res.
  destruct (sound_done _ _ _ _ _ (read16_le_sound strerror os w fd addr reg_l) Hok)
    as (v & Hv & _ & (lo & hi & Hb & ->) & _).
  pose proof (bytes_in_range (since w (snd (run os (read16_le strerror fd addr reg_l) w)))) as Hr.
  rewrite Hb in Hr. inversion Hr as [|? ? Hlo Hr']; subst.
  inversion Hr' as [|? ? Hhi _]; subst.
  exists lo, hi. auto.
Qed.

Lemma byte_split (lo k : Z) :
  0 <= lo < 256 -> (lo + 256 * k) mod 256 = lo /\ (lo + 256 * k) / 256 = k.
Proof.
  intros Hlo. split; symmetry.
  - apply (Z.mod_unique _ 256 k lo); lia.
  - apply (Z.div_unique _ 256 k lo); lia.
Qed.

Lemma word_le_bytes (lo hi : Z) :
  0 <= lo < 256 -> 0 <= hi < 256 ->
  word_le lo hi mod 256 = lo /\ (word_le lo hi / 256) mod 256 = hi.
Proof.
  intros Hlo Hhi. unfold word_le. destruct (lo + 256 * hi <? 32768).
  - destruct (byte_split lo hi Hlo) as [-> ->]. split; [reflexivity|].
    apply Z.mod_small. lia.
  - replace (lo + 256 * hi - 65536) with (lo + 256 * (hi - 256)) by lia.
    destruct (byte_split lo (hi - 256) Hlo) as [-> ->]. split; [reflexivity|].
    symmetry. apply (Z.mod_unique _ 256 (-1) hi); lia.
Qed.

(** X8. [read16_le] loses nothing: its result lies in [-32768, 32767] and
    determines the two bytes that were read, the low one as the result
    modulo 256 and the high one as its quotient by 256, modulo 256. *)
Theorem read16_le_lossless (strerror : Z -> string) (os : oracle) (fd addr reg_l : Z) (w : world) :
  let res := run os (read16_le strerror fd addr reg_l) w in
  no_failure (since w (snd res)) = true ->
  exists v,
    fst res = Done v /\ -32768 <= v <= 32767 /\
    bytes_in (since w (snd res)) = [v mod 256; (v / 256) mod 256].
Proof.
  intros res Hok.
  destruct (read16_le_value strerror os fd addr reg_l w Hok)
    as (lo & hi & Hlo & Hhi & Hb & Hv).
  exists (word_le lo hi). split; [exact Hv|]. split; [now apply word_le_range|].
  destruct (word_le_bytes lo hi Hlo Hhi) as [-> ->]. exact Hb.
Qed.

Lemma read16_le_lossless_witness :
  let os := sim (fun _ reg => if reg =? 0x2A then 0x18 else 0xFC) in
  let res := run os (read16_le strerror_linux 3 0x1E 0x2A) boot in
  no_failure (since boot (snd res)) = true /\
  exists v,
    fst res = Done v /\ -32768 <= v <= 32767 /\
    bytes_in (since boot (snd res)) = [v mod 256; (v / 256) mod 256].
Proof.
  split; [reflexivity|].
  apply (read16_le_lossless strerror_linux
           (sim (fun _ reg => if reg =? 0x2A then 0x18 else 0xFC)) 3 0x1E 0x2A boot).
  reflexivity.
Defined.

(** X9. Conversely, for every [v] in [-32768, 32767]: when the two bytes
    read are the little-endian two's-complement bytes of [v], [read16_le]
    returns [v]. *)
Theorem read16_le_round_trip (strerror : Z -> string) (os : oracle)
    (fd addr reg_l : Z) (w : world) (v : Z) :
  let res := run os (read16_le strerror fd addr reg_l) w in
  -32768 <= v <= 32767 ->
  no_failure (since w (snd res)) = true ->
  bytes_in (since w (snd res)) = [v mod 256; (v / 256) mod 256] ->
  fst res = Done v.
Proof.
  intros res Hv Hok Hb.
  destruct (read16_le_value strerror os fd addr reg_l w Hok)
    as (lo & hi & Hlo & Hhi & Hb' & Hres).
  fold res in Hb', Hres. rewrite Hres. f_equal.
  rewrite Hb in Hb'. inversion Hb' as [[Elo Ehi]]. clear Hb'.
  pose proof (Z.div_mod v 256 ltac:(lia)) as Hdm.
  pose proof (Z.mod_pos_bound v 256 ltac:(lia)) as Hm.
  assert (Hq : -128 <= v / 256 <= 127) by lia.
  unfold word_le.
  destruct (Z_lt_ge_dec (v / 256) 0) as [Hneg | Hpos].
  - assert (Eh : (v / 256) mod 256 = v / 256 + 256)
      by (symmetry; apply (Z.mod_unique _ 256 (-1)); lia).
    rewrite Eh. destruct (_ <? 32768) eqn:E;
      [apply Z.ltb_lt in E | apply Z.ltb_ge in E]; lia.
  - rewrite (Z.mod_small (v / 256)) by lia.
    destruct (_ <? 32768) eqn:E;
      [apply Z.ltb_lt in E | apply Z.ltb_ge in E]; lia.
Qed.

Lemma read16_le_round_trip_witness :
  let v := -1000 in
  let os := sim (fun _ reg => if reg =? 0x22 then v mod 256 else (v / 256) mod 256) in
  let res := run os (read16_le strerror_linux 3 0x6B 0x22) boot in
  (-32768 <= v <= 32767 /\
   no_failure (since boot (snd res)) = true /\
   bytes_in (since boot (snd res)) = [v mod 256; (v / 256) mod 256]) /\
  fst res = Done v.
Proof.
  split; [split; [lia | split; reflexivity]|].
  apply (read16_le_round_trip strerror_linux
           (sim (fun _ reg => if reg =? 0x22 then (-1000) mod 256 else (-1000 / 256) mod 256))
           3 0x6B 0x22 boot (-1000)); [lia | reflexivity | reflexivity].
Defined.

(** * The final state of a run, from what it received *)

(** ** Counting calls and bytes *)

Definition is_read (c : syscall) : bool :=
  match c with
  | sys_read _ _ => true
  | _ => false
  end.

(** The return values of the calls of a log, oldest first. *)
Definition returns (l : list entry) : list Z := map (fun e => r_ret (snd e)) l.


Lemma calls_length (l : list entry) : List.length (calls l) = List.length l.
Proof. apply length_map. Qed.

Lemma bytes_in_length (l : list entry) :
  List.length (bytes_in l) = List.length (filter is_read (calls l)).
Proof.
  induction l as [|[c r] l IH]; [reflexivity|].
  destruct c; simpl; auto.
Qed.

Lemma frames_length (fd : Z) (k : nat) :
  List.length (List.concat (repeat (frame_calls fd) k)) = (54 * k)%nat.
Proof.
  induction k as [|k IH]; [reflexivity|].
  cbn [repeat List.concat]. rewrite length_app, IH.
  change (List.length (frame_calls fd)) with 54%nat. lia.
Qed.

Lemma frames_reads (fd : Z) (k : nat) :
  List.length (filter is_read (List.concat (repeat (frame_calls fd) k))) = (18 * k)%nat.
Proof.
  induction k as [|k IH]; [reflexivity|].
  cbn [repeat List.concat]. rewrite filter_app, length_app, IH.
  change (List.length (filter is_read (frame_calls fd))) with 18%nat. lia.
Qed.

Lemma prefix_length (l s : list syscall) :
  prefix l s -> (List.length l <= List.length s)%nat.
Proof. intros [r ->]. rewrite length_app. lia. Qed.

Lemma prefix_firstn (l s : list syscall) :
  prefix l s -> l = firstn (List.length l) s.
Proof.
  intros [r ->]. rewrite firstn_app, firstn_all, Nat.sub_diag. simpl.
  now rewrite app_nil_r.
Qed.

Lemma firstn_exact {A : Type} (l1 l2 : list A) :
  firstn (List.length l1) (l1 ++ l2) = l1.
Proof.
  rewrite firstn_app, firstn_all, Nat.sub_diag. simpl. apply app_nil_r.
Qed.

(** ** What standard output shows *)

(** Complete frames behind a run that exited at its [n]-th call, beyond the
    seventeen calls of the prologue. *)
Definition frames_done (n : nat) : nat := ((n - 18) / 54)%nat.

(** Standard output and the sleeps of a run that exited at its [n]-th call
    having read [bytes]. *)
Definition shown_at_exit (n : nat) (bytes : list Z) : ostream :=
  if (n <=? 7)%nat then fresh
  else if (n <=? 17)%nat then
    mkStream (id_lines (nth 0 bytes 0) (nth 1 bytes 0)) Hex 0
  else
    mkStream (id_lines (nth 0 bytes 0) (nth 1 bytes 0) +++ header +++
              lines (words (firstn (18 * frames_done n) (skipn 2 bytes)))) Dec 0.

Definition slept_at_exit (n : nat) : list Z :=
  if (n <=? 17)%nat then [] else repeat 50000 (frames_done n).

Lemma started_length (new : list entry) (s : list syscall) :
  started new s -> (1 <= List.length new <= List.length s)%nat.
Proof.
  intros [Hne Hp]. apply prefix_length in Hp. rewrite calls_length in Hp.
  destruct new; [contradiction|]. simpl in *. lia.
Qed.

Lemma exit_shows (strerror : Z -> string) (os : oracle) (fuel : nat) (st : Z) :
  let res := run os (main strerror fuel) boot in
  fst res = Exited st ->
  cout (snd res) = shown_at_exit (List.length (log (snd res))) (bytes_in (log (snd res))) /\
  slept (snd res) = slept_at_exit (List.length (log (snd res))).
Proof.
  intros res Hx.
  destruct (main_exited strerror os fuel st Hx)
    as [(Hst & Hc & Hz)
       | [(ident & part & b1 & b2 & Hl & Hi & Hb & Hst & Hc & Hz)
         | (pro & done & part & b1 & b2 & k & Hl & Hp & Hb & Hk & Hd & Hst & Hc & Hz)]];
    fold res in Hl || idtac; fold res in Hc, Hz; fold res in Hst || idtac.
  - apply started_length in Hst. change (List.length (identify_calls _)) with 7%nat in Hst.
    unfold shown_at_exit, slept_at_exit.
    destruct (Nat.leb_spec (List.length (log (snd res))) 7); [|lia].
    destruct (Nat.leb_spec (List.length (log (snd res))) 17); [|lia]. auto.
  - apply started_length in Hst. change (List.length (configure_calls _)) with 10%nat in Hst.
    apply (f_equal (@List.length _)) in Hi. rewrite calls_length in Hi.
    change (List.length (identify_calls _)) with 7%nat in Hi.
    rewrite Hl, length_app, bytes_in_app, Hb, Hi.
    unfold shown_at_exit, slept_at_exit.
    destruct (Nat.leb_spec (7 + List.length part) 7); [lia|].
    destruct (Nat.leb_spec (7 + List.length part) 17); [|lia]. auto.
  - apply started_length in Hst. change (List.length (frame_calls _)) with 54%nat in Hst.
    assert (Hlp : List.length pro = 17%nat).
    { apply (f_equal (@List.length _)) in Hp. now rewrite calls_length in Hp. }
    assert (Hld : List.length done = (54 * k)%nat).
    { apply (f_equal (@List.length _)) in Hd.
      now rewrite calls_length, frames_length in Hd. }
    assert (Hbd : List.length (bytes_in done) = (18 * k)%nat)
      by (now rewrite bytes_in_length, Hd, frames_reads).
    assert (Hf : frames_done (17 + (54 * k + List.length part)) = k).
    { unfold frames_done. symmetry.
      apply (Nat.div_unique _ 54 k (List.length part - 1)); lia. }
    rewrite Hl, !length_app, !bytes_in_app, Hb, Hlp, Hld.
    unfold shown_at_exit, slept_at_exit. rewrite Hf.
    destruct (Nat.leb_spec (17 + (54 * k + List.length part)) 7); [lia|].
    destruct (Nat.leb_spec (17 + (54 * k + List.length part)) 17); [lia|].
    cbn [app nth skipn]. rewrite <- Hbd, firstn_exact. auto.
Qed.

(** A run of [main], by how it stands: its standard output, its sleeps and
    its number of calls as functions of what it received. *)
Lemma main_state (strerror : Z -> string) (os : oracle) (fuel : nat) :
  let res := run os (main strerror fuel) boot in
  let fd := r_ret (os [] (sys_open I2C_DEV O_RDWR)) in
  let bytes := bytes_in (log (snd res)) in
  match fst res with
  | Done _ => False
  | Running =>
      no_failure (log (snd res)) = true /\
      calls (log (snd res)) = prologue fd ++ List.concat (repeat (frame_calls fd) fuel) /\
      List.length (log (snd res)) = (17 + 54 * fuel)%nat /\
      cout (snd res) =
        mkStream (id_lines (nth 0 bytes 0) (nth 1 bytes 0) +++ header +++
                  lines (words (skipn 2 bytes))) Dec 0 /\
      slept (snd res) = repeat 50000 fuel /\
      cerr (snd res) = fresh
  | Exited st =>
      st = 1 /\
      no_failure (log (snd res)) = false /\
      cout (snd res) = shown_at_exit (List.length (log (snd res))) bytes /\
      slept (snd res) = slept_at_exit (List.length (log (snd res))) /\
      exists pre c r,
        log (snd res) = pre ++ [(c, r)] /\ no_failure pre = true /\
        fails c r = true /\
        buf (cerr (snd res)) = diagnostic strerror c r
  end.
Proof.
  intros res fd bytes. subst res fd bytes.
  pose proof (main_cases strerror os fuel) as H.
  pose proof (exit_shows strerror os fuel) as HE. cbv zeta in H, HE.
  destruct (fst (run os (main strerror fuel) boot)) as [v|st|].
  - exact H.
  - destruct H as (-> & pre & c & r & Hl & Hok & Hf & Hb).
    destruct (HE 1 eq_refl) as [Hc Hz].
    split; [reflexivity|]. split.
    { rewrite Hl, no_failure_app, Hok. simpl. now rewrite Hf. }
    split; [exact Hc|]. split; [exact Hz|]. now exists pre, c, r.
  - destruct H as (Hok & He & b1 & b2 & data & Hc & Hb & _ & Ho & Hz).
    split; [exact Hok|]. split; [exact Hc|]. split.
    { rewrite <- calls_length, Hc, length_app, frames_length. reflexivity. }
    rewrite Hb. simpl. auto.
Qed.

(** The first call of every run is the [open], answered on an empty
    history. *)
Lemma main_log_head (strerror : Z -> string) (os : oracle) (fuel : nat) :
  exists rest,
    log (snd (run os (main strerror fuel) boot)) =
    (sys_open I2C_DEV O_RDWR, os [] (sys_open I2C_DEV O_RDWR)) :: rest.
Proof.
  assert (Hm : exists k, main strerror fuel = Sys (sys_open I2C_DEV O_RDWR) k)
    by (eexists; reflexivity).
  destruct Hm as [k ->]. cbn [run].
  destruct (run_log os (k (os (log boot) (sys_open I2C_DEV O_RDWR)))
              (record (sys_open I2C_DEV O_RDWR) (os (log boot) (sys_open I2C_DEV O_RDWR)) boot))
    as [new Hn].
  exists new. rewrite Hn. reflexivity.
Qed.

Lemma app_prefix_split {A : Type} (a : list A) : forall l r b,
  l ++ r = a ++ b -> (List.length a <= List.length l)%nat ->
  exists t, l = a ++ t.
Proof.
  induction a as [|x a IH]; intros l r b H Hlen.
  - now exists l.
  - destruct l as [|y l]; [simpl in Hlen; lia|].
    simpl in H. injection H as -> H.
    destruct (IH l r b H) as [t ->]; [simpl in Hlen; lia|]. now exists t.
Qed.

(** The seven calls of the identification and the two bytes they read. *)
Lemma identification_split (fd : Z) (l : list entry) (tail : list syscall) :
  calls l = identify_calls fd ++ tail ->
  exists x y,
    bytes_in (firstn 7 l) = [x; y] /\
    bytes_in l = x :: y :: bytes_in (skipn 7 l) /\
    calls (skipn 7 l) = tail.
Proof.
  intros H. unfold identify_calls in H. cbn [flat_map identify_regs read_txn app] in H.
  do 7 (destruct l as [|[? ?] l]; [discriminate|];
        cbn [calls map fst] in H; injection H as -> H).
  eexists; eexists. split; [reflexivity|]. split; [reflexivity|]. exact H.
Qed.

(** Whether a reply counts as a failure is decided by the return value
    alone. *)
Lemma fails_ret (c : syscall) (r r' : reply) :
  r_ret r = r_ret r' -> fails c r = fails c r'.
Proof. intros H. destruct c; simpl; try rewrite H; reflexivity. Qed.

Lemma no_failure_ret (l1 : list entry) : forall l2,
  calls l1 = calls l2 -> returns l1 = returns l2 ->
  no_failure l1 = no_failure l2.
Proof.
  induction l1 as [|[c r] l1 IH]; intros [|[c' r'] l2] Hc Hr; try discriminate; auto.
  simpl in Hc, Hr. injection Hc as -> Hc. injection Hr as Hr0 Hr.
  simpl. rewrite (fails_ret c' r r' Hr0). f_equal. now apply IH.
Qed.

(** Two runs of [main] whose calls returned the same values made the same
    calls and stand alike. *)
Lemma same_course (strerror : Z -> string) (os1 os2 : oracle) (fuel : nat) :
  let res1 := run os1 (main strerror fuel) boot in
  let res2 := run os2 (main strerror fuel) boot in
  returns (log (snd res1)) = returns (log (snd res2)) ->
  r_ret (os1 [] (sys_open I2C_DEV O_RDWR)) = r_ret (os2 [] (sys_open I2C_DEV O_RDWR)) /\
  List.length (log (snd res1)) = List.length (log (snd res2)) /\
  calls (log (snd res1)) = calls (log (snd res2)) /\
  fst res1 = fst res2.
Proof.
  intros res1 res2 Hr. subst res1 res2.
  assert (Hfd : r_ret (os1 [] (sys_open I2C_DEV O_RDWR)) =
                r_ret (os2 [] (sys_open I2C_DEV O_RDWR))).
  { destruct (main_log_head strerror os1 fuel) as [t1 H1].
    destruct (main_log_head strerror os2 fuel) as [t2 H2].
    rewrite H1, H2 in Hr. simpl in Hr. now injection Hr. }
  assert (Hn : List.length (log (snd (run os1 (main strerror fuel) boot))) =
               List.length (log (snd (run os2 (main strerror fuel) boot)))).
  { apply (f_equal (@List.length _)) in Hr. unfold returns in Hr.
    now rewrite !length_map in Hr. }
  assert (Hc : calls (log (snd (run os1 (main strerror fuel) boot))) =
               calls (log (snd (run os2 (main strerror fuel) boot)))).
  { pose proof (script_prefix strerror os1 fuel) as P1.
    pose proof (script_prefix strerror os2 fuel) as P2. cbv zeta in P1, P2.
    change "/dev/i2c-1" with I2C_DEV in P1, P2. rewrite Hfd in P1.
    rewrite (prefix_firstn _ _ P1), (prefix_firstn _ _ P2), !calls_length, Hn.
    reflexivity. }
  split; [exact Hfd|]. split; [exact Hn|]. split; [exact Hc|].
  pose proof (no_failure_ret _ _ Hc Hr) as Hok.
  pose proof (main_state strerror os1 fuel) as S1.
  pose proof (main_state strerror os2 fuel) as S2. cbv zeta in S1, S2.
  destruct (fst (run os1 (main strerror fuel) boot)) as [v1|st1|];
    destruct (fst (run os2 (main strerror fuel) boot)) as [v2|st2|];
    try contradiction.
  - destruct S1 as (-> & _). destruct S2 as (-> & _). reflexivity.
  - destruct S1 as (_ & F1 & _). destruct S2 as (F2 & _). congruence.
  - destruct S1 as (F1 & _). destruct S2 as (_ & F2 & _). congruence.
  - reflexivity.
Qed.

(** A run that has reported a failure: the last call of its log is the only
    failed one, and standard error names it. *)
Definition reported (strerror : Z -> string) (w : world) : Prop :=
  exists pre c r,
    log w = pre ++ [(c, r)] /\ no_failure pre = true /\ fails c r = true /\
    buf (cerr w) = operation c +++ ": " +++ strerror (r_errno r) +++ nl.

(** Once the identification went through, the two bytes it read are the
    first two bytes of the run and the configuration has begun. *)
Lemma identified (strerror : Z -> string) (os : oracle) (fuel : nat) :
  let res := run os (main strerror fuel) boot in
  let fd := r_ret (os [] (sys_open I2C_DEV O_RDWR)) in
  no_failure (firstn 7 (log (snd res))) = true ->
  exists b1 b2,
    bytes_in (firstn 7 (log (snd res))) = [b1; b2] /\
    nth 0 (bytes_in (log (snd res))) 0 = b1 /\
    nth 1 (bytes_in (log (snd res))) 0 = b2 /\
    (7 < List.length (log (snd res)))%nat /\
    nth_error (calls (log (snd res))) 7 = Some (select fd ADDR_LSM6).
Proof.
  intros res fd Hok. subst res fd.
  pose proof (main_state strerror os fuel) as S.
  pose proof (script_prefix strerror os fuel) as [rest P]. cbv zeta in S.
  change "/dev/i2c-1" with I2C_DEV in P.
  set (fd := r_ret (os [] (sys_open I2C_DEV O_RDWR))) in *.
  set (l := log (snd (run os (main strerror fuel) boot))) in *.
  assert (Hn : (7 < List.length l)%nat).
  { destruct (fst (run os (main strerror fuel) boot)) as [v|st|].
    - destruct S.
    - destruct S as (_ & Hf & _).
      destruct (Nat.le_gt_cases (List.length l) 7) as [Hle|Hgt]; [|exact Hgt].
      rewrite (firstn_all2 _ Hle) in Hok. congruence.
    - destruct S as (_ & _ & Hlen & _). lia. }
  change (prologue fd) with (identify_calls fd ++ configure_calls fd) in P.
  rewrite <- app_assoc in P. symmetry in P.
  destruct (app_prefix_split (identify_calls fd) _ _ _ P) as [t Ht].
  { rewrite calls_length. change (List.length (identify_calls fd)) with 7%nat. lia. }
  destruct (identification_split fd l t Ht) as (x & y & Hxy & Hb & _).
  exists x, y. split; [exact Hxy|]. rewrite Hb. split; [reflexivity|].
  split; [reflexivity|]. split; [exact Hn|].
  rewrite Ht, <- app_assoc in P. apply app_inv_head in P.
  rewrite Ht. destruct t as [|s t].
  - apply (f_equal (@List.length _)) in Ht. rewrite calls_length, app_nil_r in Ht.
    change (List.length (identify_calls fd)) with 7%nat in Ht. lia.
  - unfold configure_calls in P. cbn [flat_map config_writes write_txn app] in P.
    injection P as -> _. reflexivity.
Qed.

(** * Identification and determinism *)

(** ** Identification *)

(** C7. The two identification bytes are shown in hexadecimal as they were
    read and nothing else is done with them.  Once the first seven calls
    (open and the two identification reads) have succeeded, whatever the two
    bytes are, the eighth call is the device select that starts the
    accelerometer configuration, and the whole state of the run is fixed
    without any reference to their values except in the two lines that show
    them: either the run is still in its loop, having made all calls of the
    script, with standard output holding the two lines, the header and one
    line per frame, and nothing on standard error; or it has exited with
    status 1 during configuration, standard output holding the two lines
    and nothing else; or it has exited with status 1 while sampling,
    standard output holding the two lines, the header and the lines of the
    complete frames; in both exits standard error names the one failed call.
    Two runs whose calls return the same values and whose later reads
    deliver the same bytes make the same calls, end alike, sleep alike and
    show the same standard output apart from the two identification values.
    Devices answering 0x69 and 0x3D are shown as 0x69 and 0x3d; devices
    answering 0xFF to everything are polled exactly like them. *)
Theorem identification_not_checked (strerror : Z -> string) :
  (forall os fuel,
      let res := run os (main strerror fuel) boot in
      let fd := r_ret (os [] (sys_open "/dev/i2c-1" O_RDWR)) in
      let n := List.length (log (snd res)) in
      let data := skipn 2 (bytes_in (log (snd res))) in
      no_failure (firstn 7 (log (snd res))) = true ->
      exists b1 b2,
        let ids := "LSM6DS33 WHO_AM_I = 0x" +++ fmt_hex b1 +++ nl +++
                   "LIS3MDL  WHO_AM_I = 0x" +++ fmt_hex b2 +++ nl +++ nl in
        bytes_in (firstn 7 (log (snd res))) = [b1; b2] /\
        nth_error (calls (log (snd res))) 7 = Some (select fd ADDR_LSM6) /\
        ((fst res = Running /\
          calls (log (snd res)) =
            prologue fd ++ List.concat (repeat (frame_calls fd) fuel) /\
          cout (snd res) = mkStream (ids +++ header +++ lines (words data)) Dec 0 /\
          slept (snd res) = repeat 50000 fuel /\
          cerr (snd res) = fresh) \/
         (fst res = Exited 1 /\ (n <= 17)%nat /\
          cout (snd res) = mkStream ids Hex 0 /\
          slept (snd res) = [] /\
          reported strerror (snd res)) \/
         (fst res = Exited 1 /\ (17 < n)%nat /\
          cout (snd res) =
            mkStream (ids +++ header +++
                      lines (words (firstn (18 * frames_done n) data))) Dec 0 /\
          slept (snd res) = repeat 50000 (frames_done n) /\
          reported strerror (snd res)))) /\
  (forall os1 os2 fuel,
      let res1 := run os1 (main strerror fuel) boot in
      let res2 := run os2 (main strerror fuel) boot in
      let ids := fun res : outcome Z * world =>
        "LSM6DS33 WHO_AM_I = 0x" +++ fmt_hex (nth 0 (bytes_in (log (snd res))) 0) +++ nl +++
        "LIS3MDL  WHO_AM_I = 0x" +++ fmt_hex (nth 1 (bytes_in (log (snd res))) 0) +++ nl +++ nl in
      returns (log (snd res1)) = returns (log (snd res2)) ->
      skipn 2 (bytes_in (log (snd res1))) = skipn 2 (bytes_in (log (snd res2))) ->
      calls (log (snd res1)) = calls (log (snd res2)) /\
      fst res1 = fst res2 /\
      slept (snd res1) = slept (snd res2) /\
      ((cout (snd res1) = fresh /\ cout (snd res2) = fresh) \/
       exists rest b,
         cout (snd res1) = mkStream (ids res1 +++ rest) b 0 /\
         cout (snd res2) = mkStream (ids res2 +++ rest) b 0)) /\
  (forall os fuel,
      let res := run os (main strerror fuel) boot in
      let fd := r_ret (os [] (sys_open "/dev/i2c-1" O_RDWR)) in
      no_failure (log (snd res)) = true ->
      calls (log (snd res)) = prologue fd ++ List.concat (repeat (frame_calls fd) fuel)) /\
  buf (cout (snd (run (sim idle_regs) (main strerror 0) boot))) =
    "LSM6DS33 WHO_AM_I = 0x69" +++ nl +++ "LIS3MDL  WHO_AM_I = 0x3d" +++ nl +++ nl +++ header /\
  (let odd := run (sim (fun _ _ => 0xFF)) (main strerror 1) boot in
   let good := run (sim idle_regs) (main strerror 1) boot in
   fst odd = Running /\ calls (log (snd odd)) = calls (log (snd good)) /\
   slept (snd odd) = slept (snd good) /\ cerr (snd odd) = cerr (snd good) /\
   exists rest,
     cout (snd odd) =
       mkStream ("LSM6DS33 WHO_AM_I = 0xff" +++ nl +++
                 "LIS3MDL  WHO_AM_I = 0xff" +++ nl +++ nl +++ header +++ rest) Dec 0 /\
     String.length rest = 67%nat).
Proof.
  split; [|split; [|split; [|split]]].
  - intros os fuel res fd n data Hok. subst res fd n data.
    destruct (identified strerror os fuel Hok) as (b1 & b2 & Hb & H0 & H1 & Hn & Hs).
    exists b1, b2. cbv zeta. split; [exact Hb|]. split; [exact Hs|].
    pose proof (main_state strerror os fuel) as S. cbv zeta in S.
    clear Hb Hs Hok.
    destruct (fst (run os (main strerror fuel) boot)) as [v|st|].
    + destruct S.
    + destruct S as (-> & _ & Hc & Hz & Hr).
      unfold shown_at_exit in Hc. unfold slept_at_exit in Hz. rewrite H0, H1 in Hc.
      destruct (Nat.leb_spec (List.length (log (snd (run os (main strerror fuel) boot)))) 7)
        as [Hle|_]; [lia|].
      destruct (Nat.leb_spec (List.length (log (snd (run os (main strerror fuel) boot)))) 17)
        as [Hle|Hgt].
      * right; left. split; [reflexivity|]. split; [exact Hle|]. split; [exact Hc|].
        split; [exact Hz | exact Hr].
      * right; right. split; [reflexivity|]. split; [exact Hgt|]. split; [exact Hc|].
        split; [exact Hz | exact Hr].
    + destruct S as (_ & Hc & _ & Ho & Hz & He). rewrite H0, H1 in Ho. left.
      split; [reflexivity|]. split; [exact Hc|]. split; [exact Ho|].
      split; [exact Hz | exact He].
  - intros os1 os2 fuel res1 res2 ids Hr Hb. subst res1 res2 ids.
    destruct (same_course strerror os1 os2 fuel Hr) as (_ & Hn & Hc & Ho).
    split; [exact Hc|]. split; [exact Ho|].
    pose proof (main_state strerror os1 fuel) as S1.
    pose proof (main_state strerror os2 fuel) as S2. cbv zeta in S1, S2.
    rewrite <- Ho, <- Hn, <- Hb in S2. cbv beta.
    destruct (fst (run os1 (main strerror fuel) boot)) as [v|st|].
    + destruct S1.
    + destruct S1 as (_ & _ & Hc1 & Hz1 & _). destruct S2 as (_ & _ & Hc2 & Hz2 & _).
      split; [congruence|].
      unfold shown_at_exit in Hc1, Hc2. rewrite <- Hb in Hc2.
      destruct (List.length (log (snd (run os1 (main strerror fuel) boot))) <=? 7)%nat;
        [left; auto|].
      right.
      destruct (List.length (log (snd (run os1 (main strerror fuel) boot))) <=? 17)%nat.
      * exists "", Hex. rewrite !append_nil_r. auto.
      * eexists; exists Dec. split; [exact Hc1 | exact Hc2].
    + destruct S1 as (_ & _ & _ & Hc1 & Hz1 & _). destruct S2 as (_ & _ & _ & Hc2 & Hz2 & _).
      split; [congruence|]. right. eexists; exists Dec. split; [exact Hc1 | exact Hc2].
  - intros os fuel res fd Hok. subst res fd.
    pose proof (main_state strerror os fuel) as S. cbv zeta in S.
    destruct (fst (run os (main strerror fuel) boot)) as [v|st|].
    + destruct S.
    + destruct S as (_ & Hf & _). congruence.
    + destruct S as (_ & Hc & _). exact Hc.
  - vm_compute. reflexivity.
  - cbv zeta. split; [vm_compute; reflexivity|]. split; [vm_compute; reflexivity|].
    split; [vm_compute; reflexivity|]. split; [vm_compute; reflexivity|].
    eexists. split; vm_compute; reflexivity.
Qed.

(** Devices that identify as 0xA5 and deliver 0x11 from every other
    register. *)
Definition odd_regs (addr reg : Z) : Z := if reg =? 0x0F then 0xA5 else 0x11.

Lemma identification_not_checked_witness :
  (let os := faulty 75 (mkReply 0 0 5) (sim odd_regs) in
   let res := run os (main strerror_linux 2) boot in
   let n := List.length (log (snd res)) in
   let data := skipn 2 (bytes_in (log (snd res))) in
   no_failure (firstn 7 (log (snd res))) = true /\
   exists b1 b2,
     let ids := "LSM6DS33 WHO_AM_I = 0x" +++ fmt_hex b1 +++ nl +++
                "LIS3MDL  WHO_AM_I = 0x" +++ fmt_hex b2 +++ nl +++ nl in
     bytes_in (firstn 7 (log (snd res))) = [b1; b2] /\
     nth_error (calls (log (snd res))) 7 = Some (select 3 ADDR_LSM6) /\
     ((fst res = Running /\
       calls (log (snd res)) =
         prologue 3 ++ List.concat (repeat (frame_calls 3) 2) /\
       cout (snd res) = mkStream (ids +++ header +++ lines (words data)) Dec 0 /\
       slept (snd res) = repeat 50000 2 /\
       cerr (snd res) = fresh) \/
      (fst res = Exited 1 /\ (n <= 17)%nat /\
       cout (snd res) = mkStream ids Hex 0 /\
       slept (snd res) = [] /\
       reported strerror_linux (snd res)) \/
      (fst res = Exited 1 /\ (17 < n)%nat /\
       cout (snd res) =
         mkStream (ids +++ header +++
                   lines (words (firstn (18 * frames_done n) data))) Dec 0 /\
       slept (snd res) = repeat 50000 (frames_done n) /\
       reported strerror_linux (snd res)))) /\
  (let res1 := run (sim idle_regs) (main strerror_linux 1) boot in
   let res2 := run (sim (fun addr reg => if reg =? 0x0F then 0xA5 else 0))
                   (main strerror_linux 1) boot in
   returns (log (snd res1)) = returns (log (snd res2)) /\
   skipn 2 (bytes_in (log (snd res1))) = skipn 2 (bytes_in (log (snd res2))) /\
   calls (log (snd res1)) = calls (log (snd res2)) /\
   fst res1 = fst res2 /\
   slept (snd res1) = slept (snd res2)).
Proof.
  split.
  - split; [vm_compute; reflexivity|].
    apply (proj1 (identification_not_checked strerror_linux)
             (faulty 75 (mkReply 0 0 5) (sim odd_regs)) 2%nat).
    vm_compute; reflexivity.
  - split; [vm_compute; reflexivity|]. split; [vm_compute; reflexivity|].
    destruct (proj1 (proj2 (identification_not_checked strerror_linux))
                (sim idle_regs)
                (sim (fun addr reg => if reg =? 0x0F then 0xA5 else 0)) 1%nat)
      as (Hc & Ho & Hz & _); [vm_compute; reflexivity | vm_compute; reflexivity |].
    split; [exact Hc|]. split; [exact Ho | exact Hz].
Defined.

(** ** Determinism *)



